(** * CG-LAB, lab3: all-pairs segment intersection and its visualizer

    A shallow embedding of [lab3/sympy_intersections.py] (the all-pairs
    enumeration script) and of the command line of [lab3/visualize.py],
    together with the properties of their specification.

    Both files are scripts: their module-level variables become the fields
    of a state record that the loops thread through, and the lines they
    print become a list of output lines.  The geometry library the first
    script calls (constructors [Point], [Segment] and the method
    [intersection]) is not part of the repository; the enumeration is
    therefore written over an arbitrary library, and a concrete model of the
    library is given separately. *)

From Stdlib Require Import String List Arith Bool Lia Sorted.
From Stdlib Require Import ZArith QArith Qabs Qminmax Lqa DecimalString.
Import ListNotations.

Set Implicit Arguments.
Close Scope Q_scope.
Open Scope nat_scope.

(** ** Outcomes of a run *)

(** The exceptions the two scripts and their specification speak of.
    [Exception msg] is Python's builtin [Exception(msg)], the only one the
    repository raises itself ([visualize.py], line 18).  The next three are
    the error names of the specification.  [ScalarIndexError] is Python's
    [IndexError] with the message "invalid index to scalar variable", which
    a slice of a single number raises. *)
Inductive exn : Type :=
| Exception (msg : string)
| MalformedInputError
| IndexOutOfRange
| NumericDegeneracy
| ScalarIndexError.

Inductive outcome (A : Type) : Type :=
| Returns (a : A)
| Raises (e : exn).
Arguments Returns {A} a.
Arguments Raises {A} e.

Definition bind {A B : Type} (m : outcome A) (k : A -> outcome B) : outcome B :=
  match m with
  | Returns a => k a
  | Raises e => Raises e
  end.

Notation "x <- m ;; k" := (bind m (fun x => k))
  (at level 61, m at next level, right associativity).

(** Python's [enumerate(l)]: the elements paired with their positions. *)
Definition enumerate {A : Type} (l : list A) : list (nat * A) :=
  combine (seq 0 (length l)) l.

(** Truth value of a Python list: non-empty. *)
Definition truthy {A : Type} (p : list A) : bool :=
  match p with
  | [] => false
  | _ :: _ => true
  end.

(** ** [sympy_intersections.py] *)

Module Engine.

Section Script.

(** The library: coordinates as [np.loadtxt] delivers them, points,
    geometric entities, the two constructors and the intersection method,
    which returns a Python list of entities. *)
Variables Coord Pt Entity : Type.
Variable Point : Coord * Coord -> Pt.
Variable Segment : Pt -> Pt -> Entity.
Variable intersection : Entity -> Entity -> list Entity.

(** One row of four numbers of the data file read at line 9, and its two
    slices [segment[:2]] and [segment[2:]].  For a file of two rows or more
    [np.loadtxt] returns the two-dimensional array of these rows; for a file
    without data, an array without entries; for a file of one row, a
    one-dimensional array of four numbers. *)
Definition row : Type := (Coord * Coord * Coord * Coord)%type.

Definition slice_to_2 (segment : row) : Coord * Coord :=
  let '(x1, y1, _, _) := segment in (x1, y1).

Definition slice_from_2 (segment : row) : Coord * Coord :=
  let '(_, _, x2, y2) := segment in (x2, y2).

(** What the script prints, line by line. *)
Inductive line : Type :=
  | Banner                                   (* print("This takes a while...") *)
  | PrintIndex (index : nat)                 (* print(index) *)
  | PrintCount (n : nat)                     (* print("Intersections: ", len(i)) *)
  | PrintResults (i : list (list Entity))    (* print(i) *)
  | PrintLen (n : nat).                      (* print(len(i)) *)

(** The module-level variables [s] and [i], the standard output, and one
    ghost field: [evals] records every call [segment.intersection(value)]
    the run makes, as (index, j, returned list), in the order of the
    calls.  The ghost field is written but never read by the script. *)
Record state : Type := mkState {
  var_s : list Entity;
  var_i : list (list Entity);
  stdout : list line;
  evals : list (nat * nat * list Entity)
}.

Definition print (l : line) (st : state) : state :=
  mkState (var_s st) (var_i st) (stdout st ++ [l]) (evals st).

Definition s_append (e : Entity) (st : state) : state :=
  mkState (var_s st ++ [e]) (var_i st) (stdout st) (evals st).

Definition i_append (p : list Entity) (st : state) : state :=
  mkState (var_s st) (var_i st ++ [p]) (stdout st) (evals st).

Definition note_eval (e : nat * nat * list Entity) (st : state) : state :=
  mkState (var_s st) (var_i st) (stdout st) (evals st ++ [e]).

(** Lines 4 to 7: the banner and the two empty lists. *)
Definition init : state := mkState [] [] [Banner] [].

(** Lines 11 and 12 over a two-dimensional array: one entity per row,
    appended in file order. *)
Definition load_body (st : state) (segment : row) : state :=
  s_append (Segment (Point (slice_to_2 segment)) (Point (slice_from_2 segment))) st.

Definition load (segments : list row) (st : state) : state :=
  fold_left load_body segments st.

(** Lines 15 to 20: the body of the inner loop. *)
Definition inner_body (index : nat) (segment : Entity)
           (st : state) (jv : nat * Entity) : state :=
  let (j, value) := jv in
  if j <=? index then st
  else
    let p := intersection segment value in
    let st := note_eval (index, j, p) st in
    if truthy p then i_append p st else st.

(** Lines 14 to 22: the body of the outer loop and the loop itself. *)
Definition outer_body (st : state) (iv : nat * Entity) : state :=
  let (index, segment) := iv in
  let st := fold_left (inner_body index segment) (enumerate (var_s st)) st in
  print (PrintCount (length (var_i st))) (print (PrintIndex index) st).

Definition driver (st : state) : state :=
  fold_left outer_body (enumerate (var_s st)) st.

(** Lines 24 and 25. *)
Definition report (st : state) : state :=
  print (PrintLen (length (var_i st))) (print (PrintResults (var_i st)) st).

(** The whole script on a data file with the rows [segments].  With one
    row only, the loop of line 11 runs over the four numbers of the
    one-dimensional array, and the slice [segment[:2]] of line 12 raises on
    the first of them.  Otherwise no statement of the script raises, and it
    returns the final state. *)
Definition main (segments : list row) : outcome state :=
  match segments with
  | [_] => Raises ScalarIndexError
  | _ => Returns (report (driver (load segments init)))
  end.

(** The store the load loop leaves behind, as an outcome. *)
Definition load_store (segments : list row) : outcome (list Entity) :=
  match segments with
  | [_] => Raises ScalarIndexError
  | _ => Returns (var_s (load segments init))
  end.

(** *** The enumeration, described without the loops *)

(** The index pairs of row [index]: (index, j) for index < j < n. *)
Definition row_pairs (n index : nat) : list (nat * nat) :=
  map (pair index) (seq (S index) (n - S index)).

(** All pairs (index, j) with index < j < n, row after row. *)
Definition pairs (n : nat) : list (nat * nat) :=
  flat_map (row_pairs n) (seq 0 n).

(** Lexicographic order on index pairs. *)
Definition lex_lt (a b : nat * nat) : Prop :=
  fst a < fst b \/ (fst a = fst b /\ snd a < snd b).

(** The entity built from one row. *)
Definition entity_of_row (segment : row) : Entity :=
  Segment (Point (slice_to_2 segment)) (Point (slice_from_2 segment)).

(** The evaluations of the inner loop over any list of (j, value). *)
Definition inner_evals (index : nat) (segment : Entity) (js : list (nat * Entity))
  : list (nat * nat * list Entity) :=
  map (fun jv => (index, fst jv, intersection segment (snd jv)))
      (filter (fun jv => negb (fst jv <=? index)) js).

(** The evaluations of one outer iteration and of the whole pass. *)
Definition row_evals (l : list Entity) (iv : nat * Entity)
  : list (nat * nat * list Entity) :=
  map (fun jv => (fst iv, fst jv, intersection (snd iv) (snd jv)))
    (filter (fun jv => negb (fst jv <=? fst iv)) (enumerate l)).

Definition all_evals (l : list Entity) : list (nat * nat * list Entity) :=
  flat_map (row_evals l) (enumerate l).

(** An evaluation whose result is kept. *)
Definition hit (e : nat * nat * list Entity) : bool := truthy (snd e).

(** The index pairs that produced the entries of [i], in order. *)
Definition origins (st : state) : list (nat * nat) :=
  map fst (filter hit (evals st)).

(** The index pairs that were passed to [intersection], in order. *)
Definition tested (st : state) : list (nat * nat) :=
  map fst (evals st).

(** A state that differs from [st] by the evaluations [new] only. *)
Definition extends (st st' : state) (new : list (nat * nat * list Entity)) : Prop :=
  var_s st' = var_s st /\
  evals st' = evals st ++ new /\
  var_i st' = var_i st ++ map snd (filter hit new).

End Script.

Arguments hit {Entity} e.
Arguments origins {Entity} st.
Arguments tested {Entity} st.

End Engine.

(** ** The geometric predicate *)

Module Geometry.

Local Open Scope Q_scope.

(** A point is a pair of coordinates; the coordinates are exact rationals,
    so that the predicate is the exact one the specification asks for. *)
Definition point : Type := (Q * Q)%type.

Definition px (p : point) : Q := fst p.
Definition py (p : point) : Q := snd p.

(** A segment is the ordered pair of its endpoints A and B. *)
Definition segment : Type := (point * point)%type.

Definition point_eq (p q : point) : Prop := px p == px q /\ py p == py q.

Definition point_eqb (p q : point) : bool :=
  Qeq_bool (px p) (px q) && Qeq_bool (py p) (py q).

(** The invariant of a segment: A and B differ. *)
Definition nondegenerate (S : segment) : Prop := ~ point_eq (fst S) (snd S).

(** The tagged variant of results: [Point], [Overlap(Segment)], and the
    absent result. *)
Inductive IntersectionResult : Type :=
| PointResult (p : point)
| Overlap (a b : point)
| NoResult.

Definition sign (q : Q) : Z := Z.sgn (Qnum q).

(** Modelled from the spec: the orientation value of section 4.2, step 1,
    which the repository leaves to the geometry library:
    orient(P,Q,R) = sign((Q.x-P.x)*(R.y-P.y) - (Q.y-P.y)*(R.x-P.x)). *)
Definition orient (P Q R : point) : Z :=
  sign ((px Q - px P) * (py R - py P) - (py Q - py P) * (px R - px P)).

Inductive axis : Type := AxisX | AxisY.

Definition proj (ax : axis) (P : point) : Q :=
  match ax with
  | AxisX => px P
  | AxisY => py P
  end.

(** The axis on which the segment A B has the greater extent. *)
Definition greater_extent (A B : point) : axis :=
  if Qle_bool (Qabs (py B - py A)) (Qabs (px B - px A)) then AxisX else AxisY.

(** The point of the line A B whose projection on [ax] is [t]; the range
    divided by is the extent of A B on that axis. *)
Definition lift (ax : axis) (A B : point) (t : Q) : point :=
  let u := (t - proj ax A) / (proj ax B - proj ax A) in
  (Qred (px A + u * (px B - px A)), Qred (py A + u * (py B - py A))).

(** Modelled from the spec: step 3 of section 4.2, the collinear case.
    Both segments are projected on the axis of greater extent and the
    overlap interval [lo, hi] of the two projections is computed: empty
    gives no result, a single point a [Point], a positive length the
    [Overlap] sub-segment spanning the interval. *)
Definition collinear_case (A B C D : point) : IntersectionResult :=
  let ax := greater_extent A B in
  let lo := Qmax (Qmin (proj ax A) (proj ax B)) (Qmin (proj ax C) (proj ax D)) in
  let hi := Qmin (Qmax (proj ax A) (proj ax B)) (Qmax (proj ax C) (proj ax D)) in
  match lo ?= hi with
  | Gt => NoResult
  | Eq => PointResult (lift ax A B lo)
  | Lt => Overlap (lift ax A B lo) (lift ax A B hi)
  end.

(** Step 1 of section 4.2 computes the four orientation values
    orient(A,B,C), orient(A,B,D), orient(C,D,A) and orient(C,D,B).  All
    four zero: the segments lie on one line. *)
Definition collinear (A B C D : point) : bool :=
  ((orient A B C =? 0) && (orient A B D =? 0)
   && (orient C D A =? 0) && (orient C D B =? 0))%Z.

(** The endpoints of each segment straddle the line through the other:
    the two orientation values differ.  A zero value is a valid straddle
    boundary (step 4), so only equal values fail the test. *)
Definition straddles (A B C D : point) : bool :=
  negb (orient A B C =? orient A B D)%Z && negb (orient C D A =? orient C D B)%Z.

Section Predicate.

(** The threshold under which a determinant counts as zero.  The
    specification names it "machine epsilon" and gives no value. *)
Variable machine_epsilon : Q.

(** The determinant of the 2x2 system A + t (B - A) = C + u (D - C). *)
Definition det (A B C D : point) : Q :=
  (px B - px A) * (py D - py C) - (py B - py A) * (px D - px C).

(** Modelled from the spec: the crossing-point solve of section 4.2,
    step 2.  It fails with [NumericDegeneracy] when the determinant is
    within [machine_epsilon] of zero. *)
Definition solve_crossing (A B C D : point) : outcome point :=
  let d := det A B C D in
  if Qle_bool (Qabs d) machine_epsilon then Raises NumericDegeneracy
  else
    let t := ((px C - px A) * (py D - py C) - (py C - py A) * (px D - px C)) / d in
    Returns (Qred (px A + t * (px B - px A)), Qred (py A + t * (py B - py A))).

(** Modelled from the spec: the geometric predicate of section 4.2, which
    stands for the library method [Segment.intersection] that
    [sympy_intersections.py] calls at line 18 and that is not in the
    repository.  All four orientation values zero is the collinear case
    (step 3).  Otherwise the endpoints of each segment must straddle the
    line through the other (steps 2 and 4), and the crossing point is
    solved for; a failed solve is reported as no intersection. *)
Definition predicate (S1 S2 : segment) : IntersectionResult :=
  let (A, B) := S1 in
  let (C, D) := S2 in
  if collinear A B C D then collinear_case A B C D
  else if straddles A B C D then
    match solve_crossing A B C D with
    | Returns p => PointResult p
    | Raises _ => NoResult
    end
  else NoResult.

End Predicate.

(** Two results agree up to the order of the endpoints of an overlap. *)
Definition result_equiv (r1 r2 : IntersectionResult) : Prop :=
  match r1, r2 with
  | NoResult, NoResult => True
  | PointResult p, PointResult q => p = q
  | Overlap a b, Overlap c d => (a = c /\ b = d) \/ (a = d /\ b = c)
  | _, _ => False
  end.

End Geometry.

(** ** The library as the script uses it *)

(** A concrete library to run the script on: its constructors, and the
    predicate above as its [intersection]. *)
Module Library.

Import Geometry.

(** The entities the library hands back: a point or a segment. *)
Inductive entity : Type :=
| Point2D (p : point)
| Segment2D (p1 p2 : point).

(** The coordinates of the model are the rationals the library makes of
    the numbers it is given. *)
Definition Point (xy : Q * Q) : point := xy.

(** The library builds no zero-length segment and raises nothing: its
    [Segment] of two equal points is that point. *)
Definition Segment (p1 p2 : point) : entity :=
  if point_eqb p1 p2 then Point2D p1 else Segment2D p1 p2.

(** The list [intersection] returns for a result of the predicate. *)
Definition entities (r : IntersectionResult) : list entity :=
  match r with
  | PointResult p => [Point2D p]
  | Overlap a b => [Segment2D a b]
  | NoResult => []
  end.

(** A point lies on a segment when it is on its line and in its box. *)
Definition on_segment (p a b : point) : bool :=
  (orient a b p =? 0)%Z
  && Qle_bool (Qmin (px a) (px b)) (px p) && Qle_bool (px p) (Qmax (px a) (px b))
  && Qle_bool (Qmin (py a) (py b)) (py p) && Qle_bool (py p) (Qmax (py a) (py b)).

(** Modelled from the spec: [e1.intersection(e2)], the library method the
    script calls and the repository does not contain.  On two segments it
    is the predicate of section 4.2 with exact arithmetic (threshold 0), its
    result as a list; the specification has no predicate for a point, for
    which this is membership. *)
Definition intersection (e1 e2 : entity) : list entity :=
  match e1, e2 with
  | Segment2D a b, Segment2D c d => entities (predicate 0 (a, b) (c, d))
  | Point2D p, Point2D q => if point_eqb p q then [Point2D p] else []
  | Point2D p, Segment2D a b => if on_segment p a b then [Point2D p] else []
  | Segment2D a b, Point2D p => if on_segment p a b then [Point2D p] else []
  end.

(** The script over this library. *)
Definition load_store := Engine.load_store Point Segment.
Definition driver := Engine.driver intersection.
Definition main := Engine.main Point Segment intersection.

(** A table of three rows, the last two equal, the state of the script
    after its load loop, and after its pass. *)
Definition sample_table : list (Engine.row Q) :=
  [(0, 0, 4, 4); (0, 4, 4, 0); (0, 4, 4, 0)]%Q.

Definition sample_loaded : Engine.state entity :=
  Engine.load Point Segment sample_table (Engine.init entity).

Definition sample_pass : Engine.state entity := driver sample_loaded.

End Library.

(** ** [visualize.py] *)

Module Visualize.

(** The three module-level settings, lines 7 to 9. *)
Record settings : Type := mkSettings {
  segments_path : string;
  intersections_path : string;
  use_library : bool
}.

Definition defaults : settings :=
  mkSettings "../data/s_1000_10.dat" "../data/s_1000_10_intersections.dat" true.

(** [sys.argv[k]]; the index is in range wherever the script reads it. *)
Definition argv_at (argv : list string) (k : nat) : string :=
  nth k argv EmptyString.

(** Lines 11 to 18: [argv] is [sys.argv], the script name included. *)
Definition argv_handling (argv : list string) : outcome settings :=
  if length argv =? 2 then
    Returns (mkSettings (argv_at argv 1) (intersections_path defaults)
                        (use_library defaults))
  else if length argv =? 3 then
    Returns (mkSettings (argv_at argv 1) (argv_at argv 2) false)
  else if 3 <? length argv then
    Raises (Exception "To many input arguments!")
  else Returns defaults.

(** The arguments the user typed: [sys.argv] without the script name. *)
Definition user_arguments (argv : list string) : list string := tl argv.

Section Plot.

(** The collaborators: numpy arrays and [np.loadtxt], the reshaping of
    line 21, the sweep-line library of line 26 and the conversion of its
    points to an array of rows [i.x, i.y].  Loading, reshaping and the
    library can raise (a missing file, a file of the wrong shape). *)
Variables array segment_list bo_point : Type.
Variable loadtxt : string -> outcome array.
Variable reshape_tolist : array -> outcome segment_list.
Variable bentley_ottman : segment_list -> outcome (list bo_point).
Variable xy_array : list bo_point -> array.

(** The calls to collaborators that produce data, in order. *)
Inductive call : Type :=
| Call_loadtxt (path : string)
| Call_bentley_ottman (segments : segment_list).

(** What is handed to the plotting calls of lines 23 to 37, with the calls
    that were made and returned. *)
Record figure : Type := mkFigure {
  segments : segment_list;
  intersections : array;
  calls : list call
}.

(** Lines 20 to 28. *)
Definition plot_data (cfg : settings) : outcome figure :=
  a <- loadtxt (segments_path cfg) ;;
  segments <- reshape_tolist a ;;
  let calls := [Call_loadtxt (segments_path cfg)] in
  if use_library cfg then
    (points <- bentley_ottman segments ;;
     Returns (mkFigure segments (xy_array points)
                       (calls ++ [Call_bentley_ottman segments])))
  else
    (i <- loadtxt (intersections_path cfg) ;;
     Returns (mkFigure segments i
                       (calls ++ [Call_loadtxt (intersections_path cfg)]))).

(** The script up to the data it plots. *)
Definition run (argv : list string) : outcome figure :=
  cfg <- argv_handling argv ;;
  plot_data cfg.

(** The collaborators return on every input. *)
Definition loads_succeed : Prop :=
  (forall path, exists a, loadtxt path = Returns a) /\
  (forall a, exists segs, reshape_tolist a = Returns segs) /\
  (forall segs, exists points, bentley_ottman segs = Returns points).

(** Whether a run called the sweep-line library. *)
Definition is_library_call (c : call) : bool :=
  match c with
  | Call_bentley_ottman _ => true
  | Call_loadtxt _ => false
  end.

End Plot.

End Visualize.

(** ** What the pass prints, and which pairs it keeps *)

Module EngineOutput.

Import Engine.

Section Output.

Variable Entity : Type.
Variable intersection : Entity -> Entity -> list Entity.

(** The value of [len(i)] after each outer iteration over [ivs], when it
    was [count] before the first. *)
Fixpoint running_counts (l : list Entity) (count : nat) (ivs : list (nat * Entity))
  : list nat :=
  match ivs with
  | [] => []
  | iv :: ivs' =>
      let count' := count + length (filter hit (row_evals intersection l iv)) in
      count' :: running_counts l count' ivs'
  end.

(** The two lines of lines 21 and 22, for each index with its count. *)
Definition progress_lines (indices counts : list nat) : list (line Entity) :=
  flat_map (fun kc => [PrintIndex Entity (fst kc); PrintCount Entity (snd kc)])
           (combine indices counts).

(** Whether the two stored entities at an index pair intersect, that is,
    whether [intersection] returns a non-empty list for them. *)
Definition intersects (l : list Entity) (ab : nat * nat) : bool :=
  match nth_error l (fst ab), nth_error l (snd ab) with
  | Some x, Some y => truthy (intersection x y)
  | _, _ => false
  end.

(** The results one pass over the store [l] appends to [i]. *)
Definition results (l : list Entity) : list (list Entity) :=
  map snd (filter hit (all_evals intersection l)).

End Output.

End EngineOutput.

(** ** Arrays as [visualize.py] handles them *)

Module Numpy.

(** What numpy raises in the operations below. *)
Inductive error : Type :=
| IndexError
| ValueError
| TypeError.

Section Arrays.

Variable Coord : Type.

(** The arrays [np.loadtxt] and [np.array] hand to the script: of dimension
    0 (one number), 1 (one row of numbers, or no data at all), or 2 (rows of
    [cols] numbers each). *)
Inductive ndarray : Type :=
| Array0 (x : Coord)
| Array1 (l : list Coord)
| Array2 (cols : nat) (rows : list (list Coord)).

(** An array is rectangular: every row of a 2-dimensional array has [cols]
    entries. *)
Definition well_formed (a : ndarray) : Prop :=
  match a with
  | Array2 cols rows => Forall (fun r => length r = cols) rows
  | _ => True
  end.

(** [a.shape[0]]: an array of dimension 0 has the empty shape. *)
Definition shape0 (a : ndarray) : error + nat :=
  match a with
  | Array0 _ => inl IndexError
  | Array1 l => inr (length l)
  | Array2 _ rows => inr (length rows)
  end.

(** [a.size] and the entries in row-major order. *)
Definition size (a : ndarray) : nat :=
  match a with
  | Array0 _ => 1
  | Array1 l => length l
  | Array2 cols rows => length rows * cols
  end.

Definition ravel (a : ndarray) : list Coord :=
  match a with
  | Array0 x => [x]
  | Array1 l => l
  | Array2 _ rows => concat rows
  end.

(** The nested list of an array of shape (n, 2, 2), from its entries. *)
Fixpoint chunks_2_2 (l : list Coord) : list (list (list Coord)) :=
  match l with
  | a :: b :: c :: d :: rest => [[a; b]; [c; d]] :: chunks_2_2 rest
  | _ => []
  end.

(** The shape of one entry of an array of shape (n, 2, 2). *)
Definition two_by_two (s : list (list Coord)) : Prop :=
  exists a b c d, s = [[a; b]; [c; d]].

(** Line 21, [a.reshape(a.shape[0], 2, 2).tolist()]: the reshape needs as
    many entries as the new shape holds. *)
Definition reshape_tolist (a : ndarray) : error + list (list (list Coord)) :=
  match shape0 a with
  | inl e => inl e
  | inr n => if size a =? n * 2 * 2 then inr (chunks_2_2 (ravel a)) else inl ValueError
  end.

(** Line 31, [a[:, k]]: two indices need two dimensions, and [k] a column. *)
Definition column (k : nat) (a : ndarray) : error + list Coord :=
  match a with
  | Array2 cols rows =>
      if k <? cols then
        inr (flat_map (fun r => match nth_error r k with
                                | Some x => [x]
                                | None => []
                                end) rows)
      else inl IndexError
  | _ => inl IndexError
  end.

(** [len(a)]. *)
Definition len (a : ndarray) : error + nat :=
  match a with
  | Array0 _ => inl TypeError
  | Array1 l => inr (length l)
  | Array2 _ rows => inr (length rows)
  end.

(** Line 26, [np.array([[i.x, i.y] for i in points])]: one row per point;
    the empty list gives a 1-dimensional array without entries. *)
Definition array_of_points (points : list (Coord * Coord)) : ndarray :=
  match points with
  | [] => Array1 []
  | _ :: _ => Array2 2 (map (fun i => [fst i; snd i]) points)
  end.

End Arrays.

Arguments Array1 {Coord} l.
Arguments Array2 {Coord} cols rows.
Arguments two_by_two {Coord} s.

End Numpy.

(** ** [visualize.py] up to the figure *)

Module VisualizeFigure.

Import Visualize Numpy.

(** How a run ends early: an exception of the script or one of numpy. *)
Inductive failure : Type :=
| ScriptError (e : exn)
| NumpyError (e : Numpy.error).

(** [str(n)] for a length. *)
Definition decimal (n : nat) : string := NilEmpty.string_of_uint (Nat.to_uint n).

(** Line 33: "{} Line Segments with {} Intersections".format(n, m). *)
Definition title_format (n m : nat) : string :=
  (decimal n ++ " Line Segments with " ++ decimal m ++ " Intersections")%string.

Section Figure.

Variable Coord : Type.
Variable loadtxt : string -> ndarray Coord.
Variable bentley_ottman : list (list (list Coord)) -> list (Coord * Coord).

(** What the plotting calls of lines 23 to 35 are given. *)
Record picture : Type := mkPicture {
  line_collection : list (list (list Coord));
  markers_x : list Coord;
  markers_y : list Coord;
  title : string;
  xlabel : string;
  ylabel : string
}.

Definition array_step {A : Type} (r : Numpy.error + A) (k : A -> failure + picture)
  : failure + picture :=
  match r with
  | inl e => inl (NumpyError e)
  | inr a => k a
  end.

(** Lines 20 to 35, after the command line is read. *)
Definition draw (cfg : settings) : failure + picture :=
  array_step (reshape_tolist (loadtxt (segments_path cfg))) (fun segments =>
  let intersections :=
    if use_library cfg then array_of_points (bentley_ottman segments)
    else loadtxt (intersections_path cfg) in
  array_step (column 0 intersections) (fun xs =>
  array_step (column 1 intersections) (fun ys =>
  array_step (len intersections) (fun m =>
  inr (mkPicture segments xs ys (title_format (length segments) m)
                 "X-Achsis" "Y-Achsis"))))).

(** The script from the command line to the figure. *)
Definition show_figure (argv : list string) : failure + picture :=
  match argv_handling argv with
  | Raises e => inl (ScriptError e)
  | Returns cfg => draw cfg
  end.

End Figure.

End VisualizeFigure.

(** * Properties *)

(** ** Lists and index pairs *)

Lemma filter_above_seq (index n : nat) :
  filter (fun j => negb (j <=? index)) (seq 0 n) = seq (S index) (n - S index).
Proof.
  induction n as [|n IH].
  - reflexivity.
  - rewrite seq_S, filter_app, IH. cbn [filter Nat.add].
    destruct (Nat.leb_spec n index) as [Hle|Hlt]; cbn [negb].
    + rewrite app_nil_r.
      replace (S n - S index) with 0 by lia.
      replace (n - S index) with 0 by lia. reflexivity.
    + replace (S n - S index) with (S (n - S index)) by lia.
      rewrite seq_S. do 2 f_equal. lia.
Qed.

Lemma map_fst_filter_combine {A : Type} (f : nat -> bool) (xs : list nat) (l : list A) :
  length xs = length l ->
  map fst (filter (fun p => f (fst p)) (combine xs l)) = filter f xs.
Proof.
  revert l. induction xs as [|x xs IH]; intros [|a l] Hlen; try discriminate.
  - reflexivity.
  - cbn [combine filter fst]. destruct (f x); cbn [map fst];
      rewrite IH by (simpl in Hlen; lia); reflexivity.
Qed.

Lemma enumerate_fst {A : Type} (l : list A) :
  map fst (enumerate l) = seq 0 (length l).
Proof.
  unfold enumerate. generalize 0.
  induction l as [|a l IH]; intro k; cbn [length seq combine map fst].
  - reflexivity.
  - rewrite IH. reflexivity.
Qed.

Lemma enumerate_nth_error {A : Type} (l : list A) (k : nat) (a : A) :
  In (k, a) (enumerate l) -> nth_error l k = Some a.
Proof.
  unfold enumerate.
  assert (H : forall b, In (k, a) (combine (seq b (length l)) l) ->
                        b <= k /\ nth_error l (k - b) = Some a).
  { induction l as [|x l IH]; intros b Hin; cbn [length seq combine] in Hin.
    - destruct Hin.
    - destruct Hin as [Heq|Hin].
      + inversion Heq; subst. rewrite Nat.sub_diag. split; [lia|reflexivity].
      + apply IH in Hin. destruct Hin as [Hle Hnth]. split; [lia|].
        replace (k - b) with (S (k - S b)) by lia. exact Hnth. }
  intro Hin. apply H in Hin. rewrite Nat.sub_0_r in Hin. apply Hin.
Qed.

Lemma StronglySorted_app {A : Type} (R : A -> A -> Prop) (l1 l2 : list A) :
  StronglySorted R l1 -> StronglySorted R l2 ->
  (forall x y, In x l1 -> In y l2 -> R x y) ->
  StronglySorted R (l1 ++ l2).
Proof.
  induction l1 as [|a l1 IH]; intros H1 H2 H12; cbn [app].
  - exact H2.
  - apply StronglySorted_inv in H1. destruct H1 as [H1 Ha].
    constructor.
    + apply IH; auto. intros x y Hx Hy. apply H12; [right|]; assumption.
    + apply Forall_app. split; [exact Ha|].
      apply Forall_forall. intros y Hy. apply H12; [left; reflexivity|exact Hy].
Qed.

Lemma StronglySorted_map_filter {A B : Type} (R : B -> B -> Prop)
      (f : A -> B) (g : A -> bool) (l : list A) :
  StronglySorted R (map f l) -> StronglySorted R (map f (filter g l)).
Proof.
  induction l as [|a l IH]; intro H; cbn [map filter] in *.
  - constructor.
  - apply StronglySorted_inv in H. destruct H as [H Ha].
    destruct (g a); cbn [map]; [|auto].
    constructor; [auto|].
    rewrite Forall_forall in *. intros y Hy. apply Ha.
    rewrite in_map_iff in *. destruct Hy as [x [Hx Hin]].
    exists x. split; [exact Hx|]. apply filter_In in Hin. apply Hin.
Qed.

Module PairFacts.

Import Engine.

Lemma in_row_pairs (n index a b : nat) :
  In (a, b) (row_pairs n index) <-> a = index /\ index < b < n.
Proof.
  unfold row_pairs. rewrite in_map_iff. split.
  - intros [j [Heq Hin]]. inversion Heq; subst. apply in_seq in Hin. lia.
  - intros [-> H]. exists b. split; [reflexivity|]. apply in_seq. lia.
Qed.

Lemma in_pairs (n a b : nat) : In (a, b) (pairs n) <-> a < b < n.
Proof.
  unfold pairs. rewrite in_flat_map. split.
  - intros [index [_ Hin]]. apply in_row_pairs in Hin. lia.
  - intro H. exists a. split; [apply in_seq; lia|].
    apply in_row_pairs. lia.
Qed.

Lemma row_pairs_sorted (n index : nat) :
  StronglySorted lex_lt (row_pairs n index).
Proof.
  unfold row_pairs. generalize (S index) as b, (n - S index) as k.
  intros b k. revert b.
  induction k as [|k IH]; intro b; cbn [seq map].
  - constructor.
  - constructor; [apply IH|].
    apply Forall_forall. intros [x y] Hin.
    apply in_map_iff in Hin. destruct Hin as [j [Heq Hin]].
    inversion Heq; subst. apply in_seq in Hin.
    right. cbn [fst snd]. lia.
Qed.

Lemma pairs_from_sorted (n k a : nat) :
  StronglySorted lex_lt (flat_map (row_pairs n) (seq a k)).
Proof.
  revert a. induction k as [|k IH]; intro a; cbn [seq flat_map].
  - constructor.
  - apply StronglySorted_app; [apply row_pairs_sorted|apply IH|].
    intros [x1 y1] [x2 y2] H1 H2.
    apply in_row_pairs in H1.
    apply in_flat_map in H2. destruct H2 as [index [Hidx H2]].
    apply in_seq in Hidx. apply in_row_pairs in H2.
    left. cbn [fst]. lia.
Qed.

Lemma pairs_sorted (n : nat) : StronglySorted lex_lt (pairs n).
Proof. apply pairs_from_sorted. Qed.

Lemma lex_lt_irrefl (a : nat * nat) : ~ lex_lt a a.
Proof. unfold lex_lt. lia. Qed.

Lemma sorted_NoDup (l : list (nat * nat)) :
  StronglySorted lex_lt l -> NoDup l.
Proof.
  induction 1 as [|a l Hs IH Ha]; constructor; [|exact IH].
  intro Hin. rewrite Forall_forall in Ha.
  exact (lex_lt_irrefl (Ha a Hin)).
Qed.

Lemma pairs_NoDup (n : nat) : NoDup (pairs n).
Proof. apply sorted_NoDup, pairs_sorted. Qed.

Lemma length_row_pairs (n index : nat) :
  length (row_pairs n index) = n - S index.
Proof. unfold row_pairs. rewrite length_map, length_seq. reflexivity. Qed.

Lemma length_pairs_from (n k a : nat) :
  a + k = n ->
  2 * length (flat_map (row_pairs n) (seq a k)) = k * (k - 1).
Proof.
  revert a. induction k as [|k IH]; intros a Hn; cbn [seq flat_map].
  - reflexivity.
  - rewrite length_app, length_row_pairs.
    specialize (IH (S a) ltac:(lia)).
    replace (n - S a) with k by lia.
    replace (S k - 1) with k by lia.
    destruct k as [|k]; [simpl in *; lia|].
    replace (S k - 1) with k in IH by lia. nia.
Qed.

Lemma length_pairs (n : nat) : length (pairs n) = n * (n - 1) / 2.
Proof.
  unfold pairs. pose proof (@length_pairs_from n n 0 eq_refl) as H.
  rewrite <- H, Nat.mul_comm, Nat.div_mul by discriminate. reflexivity.
Qed.

End PairFacts.

(** ** The enumeration driver *)

Module DriverFacts.

Import Engine.

Section Facts.

Variable Entity : Type.
Variable intersection : Entity -> Entity -> list Entity.

Abbreviation state := (Engine.state Entity).
Abbreviation inner_body := (Engine.inner_body intersection).
Abbreviation outer_body := (Engine.outer_body intersection).
Abbreviation driver := (Engine.driver intersection).
Abbreviation row_evals := (Engine.row_evals intersection).
Abbreviation all_evals := (Engine.all_evals intersection).
Abbreviation inner_evals := (Engine.inner_evals intersection).

Lemma inner_loop (index : nat) (segment : Entity) (js : list (nat * Entity)) :
  forall st : state,
    stdout (fold_left (inner_body index segment) js st) = stdout st /\
    extends st (fold_left (inner_body index segment) js st)
            (inner_evals index segment js).
Proof.
  unfold extends, inner_evals.
  induction js as [|[j value] js IH]; intro st; cbn [fold_left].
  - cbn [filter map]. rewrite !app_nil_r. auto.
  - specialize (IH (inner_body index segment st (j, value))).
    destruct IH as [Hout [Hs [He Hi]]].
    rewrite Hout, Hs, He, Hi. clear Hout Hs He Hi.
    unfold Engine.inner_body. cbn [filter fst snd].
    destruct (j <=? index); cbn [negb].
    + auto.
    + cbn [map filter hit snd].
      destruct (truthy (intersection segment value)) eqn:Ht;
        unfold hit at 2; cbn [snd]; rewrite Ht;
        cbn [var_s var_i evals stdout i_append note_eval map];
        rewrite <- !app_assoc; auto.
Qed.

Lemma extends_trans (st1 st2 st3 : state) (n1 n2 : list (nat * nat * list Entity)) :
  extends st1 st2 n1 -> extends st2 st3 n2 -> extends st1 st3 (n1 ++ n2).
Proof.
  unfold extends. intros [Hs1 [He1 Hi1]] [Hs2 [He2 Hi2]].
  rewrite Hs2, He2, Hi2, Hs1, He1, Hi1.
  rewrite filter_app, map_app, <- !app_assoc. auto.
Qed.

Lemma outer_body_extends (st : state) (iv : nat * Entity) :
  extends st (outer_body st iv) (row_evals (var_s st) iv).
Proof.
  destruct iv as [index segment].
  destruct (inner_loop index segment (enumerate (var_s st)) st) as [_ H].
  exact H.
Qed.

Lemma outer_loop (l : list Entity) (ivs : list (nat * Entity)) :
  forall st : state,
    var_s st = l ->
    extends st (fold_left outer_body ivs st) (flat_map (row_evals l) ivs).
Proof.
  induction ivs as [|iv ivs IH]; intros st Hl; cbn [fold_left flat_map].
  - unfold extends. cbn [filter map]. rewrite !app_nil_r. auto.
  - pose proof (outer_body_extends st iv) as H1. rewrite Hl in H1.
    apply (extends_trans H1). apply IH.
    destruct H1 as [Hs _]. congruence.
Qed.

(** One pass appends to [evals] the evaluations of all pairs, to [i] the
    non-empty results among them, and leaves the store alone. *)
Lemma driver_extends (st : state) :
  extends st (driver st) (all_evals (var_s st)).
Proof. apply outer_loop. reflexivity. Qed.

Lemma map_fst_row_evals (l : list Entity) (iv : nat * Entity) :
  map fst (row_evals l iv) = row_pairs (length l) (fst iv).
Proof.
  unfold Engine.row_evals, row_pairs.
  rewrite map_map. cbn [fst].
  rewrite <- filter_above_seq.
  rewrite <- (map_fst_filter_combine (fun j => negb (j <=? fst iv))
                (seq 0 (length l)) l) by apply length_seq.
  rewrite map_map. reflexivity.
Qed.

(** The pairs passed to [intersection] are all (index, j), index < j. *)
Lemma map_fst_all_evals (l : list Entity) :
  map fst (all_evals l) = pairs (length l).
Proof.
  unfold Engine.all_evals, pairs.
  rewrite <- (enumerate_fst l).
  generalize (enumerate l) as ivs.
  induction ivs as [|iv ivs IH]; cbn [flat_map map].
  - reflexivity.
  - rewrite map_app, map_fst_row_evals, IH. reflexivity.
Qed.

(** Every recorded evaluation is the intersection of the two stored
    entities at its index pair. *)
Lemma all_evals_sound (l : list Entity) (a b : nat) (p : list Entity) :
  In (a, b, p) (all_evals l) ->
  exists x y, nth_error l a = Some x /\ nth_error l b = Some y /\
              p = intersection x y.
Proof.
  unfold Engine.all_evals, Engine.row_evals.
  rewrite in_flat_map. intros [[index segment] [Hiv Hin]].
  rewrite in_map_iff in Hin. destruct Hin as [[j value] [Heq Hin]].
  cbn [fst snd] in Heq. inversion Heq; subst.
  apply filter_In in Hin. destruct Hin as [Hjv _].
  exists segment, value.
  split; [|split]; [apply enumerate_nth_error; assumption ..|reflexivity].
Qed.

Lemma all_evals_complete (l : list Entity) (a b : nat) (x y : Entity) :
  a < b -> nth_error l a = Some x -> nth_error l b = Some y ->
  In (a, b, intersection x y) (all_evals l).
Proof.
  intros Hab Hx Hy.
  assert (Hb : b < length l) by (apply nth_error_Some; congruence).
  assert (Hin : In (a, b) (map fst (all_evals l))).
  { rewrite map_fst_all_evals. apply PairFacts.in_pairs. lia. }
  apply in_map_iff in Hin. destruct Hin as [[[a' b'] p] [Heq Hin]].
  cbn [fst] in Heq. inversion Heq; subst.
  destruct (all_evals_sound _ _ _ _ Hin) as [x' [y' [Hx' [Hy' Hp]]]].
  replace x with x' by congruence. replace y with y' by congruence.
  rewrite <- Hp. exact Hin.
Qed.

Lemma length_all_evals (l : list Entity) :
  length (all_evals l) = length l * (length l - 1) / 2.
Proof.
  rewrite <- PairFacts.length_pairs, <- map_fst_all_evals, length_map.
  reflexivity.
Qed.

Lemma length_filter_le {A : Type} (f : A -> bool) (l : list A) :
  length (filter f l) <= length l.
Proof.
  induction l as [|a l IH]; cbn [filter length]; [lia|].
  destruct (f a); cbn [length]; lia.
Qed.

End Facts.

End DriverFacts.

(** ** The load loop and one pass of the script *)

Module EngineClaims.

Import Engine DriverFacts.

Section Claims.

Variables Coord Pt Entity : Type.
Variable Point : Coord * Coord -> Pt.
Variable Segment : Pt -> Pt -> Entity.
Variable intersection : Entity -> Entity -> list Entity.

Abbreviation state := (Engine.state Entity).
Abbreviation driver := (Engine.driver intersection).
Abbreviation load := (Engine.load Point Segment).
Abbreviation entity_of_row := (Engine.entity_of_row Point Segment).

Lemma load_appends (segments : list (row Coord)) :
  forall st : state,
    var_s (load segments st) = var_s st ++ map entity_of_row segments /\
    var_i (load segments st) = var_i st /\
    evals (load segments st) = evals st /\
    stdout (load segments st) = stdout st.
Proof.
  induction segments as [|r segments IH]; intro st; cbn [Engine.load fold_left map].
  - rewrite app_nil_r. auto.
  - destruct (IH (load_body Point Segment st r)) as [Hs [Hi [He Ho]]].
    unfold Engine.load in *. rewrite Hs, Hi, He, Ho.
    cbn [load_body s_append var_s var_i evals stdout].
    rewrite <- app_assoc. auto.
Qed.

(** C1 (as amended): the record appended for a pair is the list the
    intersection method returned for it and nothing more.  After a pass
    started with [i] empty, [i] holds, in the order of the enumeration,
    exactly the non-empty lists [intersection s[a] s[b]] of the pairs
    a < b; the k-th record is the result of the k-th producing pair, and
    every pair with a non-empty intersection has its result in [i]. *)
Theorem C1_record_is_the_geometric_result (st : state) :
  var_i st = [] -> evals st = [] ->
  var_i (driver st) = map snd (filter hit (evals (driver st))) /\
  Forall2 (fun ab p => exists x y,
               nth_error (var_s st) (fst ab) = Some x /\
               nth_error (var_s st) (snd ab) = Some y /\
               p = intersection x y /\ truthy p = true)
          (origins (driver st)) (var_i (driver st)) /\
  (forall a b x y,
      a < b -> nth_error (var_s st) a = Some x -> nth_error (var_s st) b = Some y ->
      truthy (intersection x y) = true ->
      In (intersection x y) (var_i (driver st))).
Proof.
  intros Hi He.
  destruct (driver_extends intersection st) as [_ [He' Hi']].
  rewrite Hi, He in *. cbn [app] in *.
  unfold origins. rewrite He', Hi'. split; [reflexivity|]. split.
  - assert (Hsound : Forall (fun e => exists x y,
                nth_error (var_s st) (fst (fst e)) = Some x /\
                nth_error (var_s st) (snd (fst e)) = Some y /\
                snd e = intersection x y)
              (Engine.all_evals intersection (var_s st))).
    { apply Forall_forall. intros [[a b] p] Hin.
      apply all_evals_sound in Hin. exact Hin. }
    clear He' Hi'.
    induction Hsound as [|e l [x [y [Hx [Hy Hp]]]] Hl IH]; cbn [filter map].
    + constructor.
    + destruct (hit e) eqn:Hhit; cbn [map]; [|exact IH].
      constructor; [|exact IH].
      exists x, y. repeat split; assumption.
  - intros a b x y Hab Hx Hy Ht.
    apply in_map_iff. exists (a, b, intersection x y).
    split; [reflexivity|]. apply filter_In. split; [|exact Ht].
    apply all_evals_complete; assumption.
Qed.

(** C2 (as amended): the load loop checks nothing and rejects no row.  For
    a data file of no row or of two rows or more it returns a store with one
    entity per row, in file order, each of them what the library's [Segment]
    makes of the two endpoints, whether they are equal or not. *)
Theorem C2_load_never_rejects (segments : list (row Coord)) :
  length segments <> 1 ->
  load_store Point Segment segments = Returns (map entity_of_row segments) /\
  (forall st, length (var_s (load segments st))
              = length (var_s st) + length segments).
Proof.
  intro Hrows. split.
  - unfold load_store.
    destruct (load_appends segments (init Entity)) as [Hs _].
    unfold Engine.load in *. rewrite Hs.
    destruct segments as [|r [|r' segments]]; [reflexivity| |reflexivity].
    exfalso. apply Hrows. reflexivity.
  - intro st. destruct (load_appends segments st) as [Hs _].
    rewrite Hs, length_app, length_map. reflexivity.
Qed.

(** A file of one row is not loaded at all: the script ends at line 12. *)
Lemma one_row_file_raises (segment : row Coord) :
  load_store Point Segment [segment] = Raises ScalarIndexError /\
  main Point Segment intersection [segment] = Raises ScalarIndexError.
Proof. split; reflexivity. Qed.

(** C3: one pass passes to [intersection] exactly the pairs (index, j)
    with index < j < N, each once, N (N - 1) / 2 calls in all; every
    call is made on the two stored entities at those indices; and the
    non-empty results are appended to [i] in increasing lexicographic
    order of the pair that produced them. *)
Theorem C3_every_pair_once_in_order (st : state) :
  var_i st = [] -> evals st = [] ->
  let n := length (var_s st) in
  tested (driver st) = pairs n /\
  (forall a b, In (a, b) (tested (driver st)) <-> a < b < n) /\
  NoDup (tested (driver st)) /\
  length (evals (driver st)) = n * (n - 1) / 2 /\
  (forall a b p, In (a, b, p) (evals (driver st)) ->
     exists x y, nth_error (var_s st) a = Some x /\
                 nth_error (var_s st) b = Some y /\ p = intersection x y) /\
  var_i (driver st) = map snd (filter hit (evals (driver st))) /\
  origins (driver st) = map fst (filter hit (evals (driver st))) /\
  StronglySorted lex_lt (origins (driver st)).
Proof.
  intros Hi He n.
  destruct (driver_extends intersection st) as [_ [He' Hi']].
  rewrite Hi, He in *. cbn [app] in *.
  assert (Ht : tested (driver st) = pairs n).
  { unfold tested. rewrite He'. apply map_fst_all_evals. }
  unfold origins. rewrite Ht, He', Hi'.
  split; [reflexivity|].
  split; [intros a b; apply PairFacts.in_pairs|].
  split; [apply PairFacts.pairs_NoDup|].
  split; [apply length_all_evals|].
  split; [intros a b p; apply all_evals_sound|].
  split; [reflexivity|]. split; [reflexivity|].
  apply StronglySorted_map_filter.
  rewrite map_fst_all_evals. apply PairFacts.pairs_sorted.
Qed.

(** C4: no entity is tested against itself.  In one pass every pair
    passed to [intersection] has index < j, so never (i, i), and no
    entry of [i] comes from a pair (i, i). *)
Theorem C4_no_self_pair (st : state) :
  var_i st = [] -> evals st = [] ->
  Forall (fun ab => fst ab < snd ab) (tested (driver st)) /\
  (forall k, ~ In (k, k) (tested (driver st))) /\
  (forall k, ~ In (k, k) (origins (driver st))).
Proof.
  intros Hi He.
  destruct (driver_extends intersection st) as [_ [He' _]].
  rewrite He in He'. cbn [app] in He'.
  assert (Hlt : forall a b, In (a, b) (tested (driver st)) -> a < b).
  { unfold tested. rewrite He', map_fst_all_evals.
    intros a b Hin. apply PairFacts.in_pairs in Hin. lia. }
  split; [|split].
  - apply Forall_forall. intros [a b] Hin. apply Hlt. exact Hin.
  - intros k Hin. apply Hlt in Hin. lia.
  - intros k Hin. unfold origins in Hin.
    apply in_map_iff in Hin. destruct Hin as [e [Heq Hin]].
    apply filter_In in Hin. destruct Hin as [Hin _].
    assert (Hk : k < k); [|lia].
    apply Hlt. unfold tested. rewrite <- Heq. apply in_map. exact Hin.
Qed.

(** C5: a pass over a store of N entities, started with [i] empty,
    leaves at most N (N - 1) / 2 results in [i]. *)
Theorem C5_count_bound (st : state) :
  var_i st = [] ->
  length (var_i (driver st)) <= length (var_s st) * (length (var_s st) - 1) / 2.
Proof.
  intro Hi.
  destruct (driver_extends intersection st) as [_ [_ Hi']].
  rewrite Hi' , Hi. cbn [app]. rewrite length_map.
  rewrite <- (length_all_evals intersection).
  apply length_filter_le.
Qed.

(** C7: the result sequence of a pass is a function of the store alone.
    Two passes that start with [i] empty on the same store end with the
    same [i], whatever else the two states hold, and a pass leaves the
    store as it found it. *)
Theorem C7_pass_is_deterministic (st1 st2 : state) :
  var_s st1 = var_s st2 -> var_i st1 = [] -> var_i st2 = [] ->
  var_i (driver st1) = var_i (driver st2) /\
  var_s (driver st1) = var_s st1 /\
  var_s (driver st2) = var_s st1.
Proof.
  intros Hs H1 H2.
  destruct (driver_extends intersection st1) as [Hs1 [_ Hi1]].
  destruct (driver_extends intersection st2) as [Hs2 [_ Hi2]].
  rewrite Hi1, Hi2, H1, H2, Hs1, Hs2, Hs. auto.
Qed.

End Claims.

End EngineClaims.

(** ** The geometric predicate: symmetry *)

Module GeometryFacts.

Import Geometry.
Local Open Scope Q_scope.

Lemma sign_zero (q : Q) : sign q = 0%Z <-> q == 0.
Proof.
  unfold sign, Qeq. cbn [Qnum Qden]. rewrite Z.sgn_null_iff. lia.
Qed.

Lemma sign_comp (q q' : Q) : q == q' -> sign q = sign q'.
Proof.
  unfold sign, Qeq. intro H.
  destruct q as [n d], q' as [n' d']. cbn [Qnum Qden] in *.
  destruct (Z.sgn_spec n) as [[? ->]|[[? ->]|[? ->]]];
    destruct (Z.sgn_spec n') as [[? ->]|[[? ->]|[? ->]]]; try reflexivity; nia.
Qed.

Lemma straddle_det (A B C D : point) :
  orient A B C <> orient A B D -> ~ det A B C D == 0.
Proof.
  intros Hne Hdet. apply Hne. unfold orient. apply sign_comp.
  unfold det in Hdet. lra.
Qed.

Lemma det_swap (A B C D : point) : det C D A B == - det A B C D.
Proof. unfold det. ring. Qed.

Lemma solve_crossing_sym (eps : Q) (A B C D : point) :
  ~ det A B C D == 0 ->
  solve_crossing eps C D A B = solve_crossing eps A B C D.
Proof.
  intro Hdet. unfold solve_crossing.
  assert (Hd : ~ det C D A B == 0) by (rewrite det_swap; lra).
  assert (Habs : Qabs (det C D A B) == Qabs (det A B C D))
    by (rewrite det_swap; apply Qabs_opp).
  rewrite (Qleb_comp _ _ Habs eps eps (Qeq_refl eps)).
  destruct (Qle_bool (Qabs (det A B C D)) eps); [reflexivity|].
  f_equal. unfold det in *. f_equal; apply Qred_complete; field; split; lra.
Qed.

Lemma sq_pos (a : Q) : ~ a == 0 -> 0 < a * a.
Proof.
  intro H. destruct (Qlt_le_dec 0 a); [nra|].
  destruct (Qlt_le_dec a 0); [nra|]. exfalso. apply H. lra.
Qed.

Lemma abs_le_sq (x y : Q) : Qabs x <= Qabs y <-> x * x <= y * y.
Proof.
  split; intro H; revert H; apply Qabs_case; apply Qabs_case; intros; nra.
Qed.

(** Parallel directions: the comparison of extents carries over. *)
Lemma parallel_extent (a b c d : Q) :
  ~ a == 0 -> a * d == b * c -> b * b <= a * a -> d * d <= c * c.
Proof.
  intros Ha H Hle. pose proof (sq_pos Ha) as Hp.
  assert (H3 : (a * d) * (a * d) == (b * c) * (b * c)) by (rewrite H; reflexivity).
  assert (0 <= c * c) by nra.
  destruct (Qlt_le_dec (c * c) (d * d)) as [Hlt|]; [|assumption]. exfalso.
  assert (H4 : a * a * (c * c) < a * a * (d * d)) by (apply Qmult_lt_l; assumption).
  assert (H5 : b * b * (c * c) <= a * a * (c * c)) by (apply Qmult_le_compat_r; assumption).
  nra.
Qed.

Lemma collinear_crosses (A B C D : point) :
  collinear A B C D = true ->
  (px B - px A) * (py C - py A) - (py B - py A) * (px C - px A) == 0 /\
  (px B - px A) * (py D - py A) - (py B - py A) * (px D - px A) == 0 /\
  (px D - px C) * (py A - py C) - (py D - py C) * (px A - px C) == 0 /\
  (px D - px C) * (py B - py C) - (py D - py C) * (px B - px C) == 0.
Proof.
  unfold collinear, orient. rewrite !andb_true_iff, !Z.eqb_eq, !sign_zero. tauto.
Qed.

Lemma nondegenerate_diff (A B : point) :
  nondegenerate (A, B) -> ~ (px B - px A == 0 /\ py B - py A == 0).
Proof.
  unfold nondegenerate, point_eq. cbn [fst snd]. intros H [Hx Hy]. apply H. split; lra.
Qed.

Lemma greater_extent_X (A B : point) :
  greater_extent A B = AxisX <->
  (py B - py A) * (py B - py A) <= (px B - px A) * (px B - px A).
Proof.
  unfold greater_extent. rewrite <- abs_le_sq, <- Qle_bool_iff.
  destruct (Qle_bool _ _); split; congruence.
Qed.

Lemma extent_nonzero (A B : point) :
  nondegenerate (A, B) ->
  ~ proj (greater_extent A B) B - proj (greater_extent A B) A == 0.
Proof.
  intros Hnd Hz. apply nondegenerate_diff in Hnd. apply Hnd.
  destruct (greater_extent A B) eqn:Hax; cbn [proj] in Hz.
  - apply greater_extent_X in Hax. split; [exact Hz|]. nra.
  - assert (Hn : ~ (py B - py A) * (py B - py A) <= (px B - px A) * (px B - px A)).
    { intro Hle. apply greater_extent_X in Hle. congruence. }
    exfalso. apply Hn. nra.
Qed.

Lemma extent_agree (A B C D : point) :
  nondegenerate (A, B) -> nondegenerate (C, D) -> collinear A B C D = true ->
  greater_extent C D = greater_extent A B.
Proof.
  intros HAB HCD Hcol.
  apply collinear_crosses in Hcol. destruct Hcol as [H1 [H2 [H3 H4]]].
  pose proof (extent_nonzero HAB) as NAB.
  pose proof (extent_nonzero HCD) as NCD.
  assert (Hpar : (px B - px A) * (py D - py C) == (py B - py A) * (px D - px C)) by lra.
  destruct (greater_extent A B) eqn:EAB; destruct (greater_extent C D) eqn:ECD;
    try reflexivity; cbn [proj] in NAB, NCD; exfalso.
  - apply greater_extent_X in EAB.
    assert (Hle : (py D - py C) * (py D - py C) <= (px D - px C) * (px D - px C))
      by (apply (parallel_extent NAB Hpar EAB)).
    apply greater_extent_X in Hle. congruence.
  - apply greater_extent_X in ECD.
    assert (Hpar' : (px D - px C) * (py B - py A) == (py D - py C) * (px B - px A)) by lra.
    assert (Hle : (py B - py A) * (py B - py A) <= (px B - px A) * (px B - px A))
      by (apply (parallel_extent NCD Hpar' ECD)).
    apply greater_extent_X in Hle. congruence.
Qed.

Lemma div_cross (p q r s : Q) :
  ~ q == 0 -> ~ s == 0 -> p * s == r * q -> p / q == r / s.
Proof.
  intros Hq Hs H.
  setoid_replace (p / q) with ((p * s) / (q * s)) by (field; auto).
  rewrite H. field. auto.
Qed.

Lemma div_move (a x y : Q) : ~ a == 0 -> a * x == y -> x == y / a.
Proof.
  intros Ha H. rewrite <- H. field. exact Ha.
Qed.

(** Two parametrisations of one line agree.  Index 0 is the coordinate on
    the projection axis, index 1 the other coordinate. *)
Lemma lift_other_coord (a0 a1 b0 b1 c0 c1 d0 d1 t : Q) :
  ~ b0 - a0 == 0 -> ~ d0 - c0 == 0 ->
  (b0 - a0) * (c1 - a1) == (b1 - a1) * (c0 - a0) ->
  (b0 - a0) * (d1 - c1) == (b1 - a1) * (d0 - c0) ->
  c1 + (t - c0) / (d0 - c0) * (d1 - c1) == a1 + (t - a0) / (b0 - a0) * (b1 - a1).
Proof.
  intros Ha Hc H1 Hpar.
  assert (K1 : (d1 - c1) / (d0 - c0) == (b1 - a1) / (b0 - a0)).
  { apply div_cross; auto. rewrite <- Hpar. ring. }
  assert (K2 : c1 - a1 == (b1 - a1) * (c0 - a0) / (b0 - a0)).
  { apply div_move; auto. }
  setoid_replace (c1 + (t - c0) / (d0 - c0) * (d1 - c1))
    with (a1 + (c1 - a1) + (t - c0) * ((d1 - c1) / (d0 - c0))) by (field; auto).
  rewrite K1, K2. field. auto.
Qed.

Lemma lift_same_coord (a0 b0 c0 d0 t : Q) :
  ~ b0 - a0 == 0 -> ~ d0 - c0 == 0 ->
  c0 + (t - c0) / (d0 - c0) * (d0 - c0) == a0 + (t - a0) / (b0 - a0) * (b0 - a0).
Proof. intros Ha Hc. field. auto. Qed.

Lemma lift_agree (ax : axis) (A B C D : point) (t t' : Q) :
  collinear A B C D = true ->
  ~ proj ax B - proj ax A == 0 -> ~ proj ax D - proj ax C == 0 ->
  t' == t ->
  lift ax C D t' = lift ax A B t.
Proof.
  intros Hcol Ha Hc Ht.
  apply collinear_crosses in Hcol. destruct Hcol as [H1 [H2 _]].
  unfold lift.
  destruct ax; cbn [proj] in *; f_equal; apply Qred_complete; rewrite Ht.
  - apply lift_same_coord; assumption.
  - apply lift_other_coord; try assumption; lra.
  - apply lift_other_coord; try assumption; lra.
  - apply lift_same_coord; assumption.
Qed.

Lemma collinear_case_sym (A B C D : point) :
  nondegenerate (A, B) -> nondegenerate (C, D) -> collinear A B C D = true ->
  collinear_case C D A B = collinear_case A B C D.
Proof.
  intros HAB HCD Hcol. unfold collinear_case.
  pose proof (extent_nonzero HAB) as NAB.
  pose proof (extent_nonzero HCD) as NCD.
  rewrite (extent_agree HAB HCD Hcol) in *.
  set (ax := greater_extent A B) in *.
  set (lo := Qmax (Qmin (proj ax A) (proj ax B)) (Qmin (proj ax C) (proj ax D))).
  set (hi := Qmin (Qmax (proj ax A) (proj ax B)) (Qmax (proj ax C) (proj ax D))).
  set (lo' := Qmax (Qmin (proj ax C) (proj ax D)) (Qmin (proj ax A) (proj ax B))).
  set (hi' := Qmin (Qmax (proj ax C) (proj ax D)) (Qmax (proj ax A) (proj ax B))).
  assert (Hlo : lo' == lo) by apply Q.max_comm.
  assert (Hhi : hi' == hi) by apply Q.min_comm.
  rewrite (Qcompare_comp _ _ Hlo _ _ Hhi).
  destruct (lo ?= hi); [f_equal|f_equal|reflexivity]; apply lift_agree; assumption.
Qed.

Lemma collinear_sym (A B C D : point) : collinear C D A B = collinear A B C D.
Proof.
  unfold collinear.
  destruct (orient A B C =? 0)%Z, (orient A B D =? 0)%Z,
           (orient C D A =? 0)%Z, (orient C D B =? 0)%Z; reflexivity.
Qed.

Lemma straddles_sym (A B C D : point) : straddles C D A B = straddles A B C D.
Proof. unfold straddles. apply andb_comm. Qed.

Lemma predicate_swap (eps : Q) (S1 S2 : segment) :
  nondegenerate S1 -> nondegenerate S2 ->
  predicate eps S2 S1 = predicate eps S1 S2.
Proof.
  destruct S1 as [A B], S2 as [C D]. intros HAB HCD. unfold predicate.
  rewrite collinear_sym, straddles_sym.
  destruct (collinear A B C D) eqn:Hcol.
  - apply collinear_case_sym; assumption.
  - destruct (straddles A B C D) eqn:Hstr; [|reflexivity].
    rewrite solve_crossing_sym; [reflexivity|].
    apply straddle_det. unfold straddles in Hstr.
    apply andb_true_iff in Hstr. destruct Hstr as [Hstr _].
    apply negb_true_iff, Z.eqb_neq in Hstr. exact Hstr.
Qed.

Lemma result_equiv_refl (r : IntersectionResult) : result_equiv r r.
Proof. destruct r; cbn [result_equiv]; auto. Qed.

End GeometryFacts.

(** ** The geometric predicate: the claims *)

Module GeometryClaims.

Import Geometry GeometryFacts.
Local Open Scope Q_scope.

(** C6: the predicate is symmetric.  For two segments that satisfy the
    segment invariant (distinct endpoints), the result for (S1, S2) and the
    result for (S2, S1) are the same classification with the same point, or
    the same overlap up to the order of its two endpoints. *)
Theorem C6_predicate_symmetric (eps : Q) (S1 S2 : segment) :
  nondegenerate S1 -> nondegenerate S2 ->
  result_equiv (predicate eps S1 S2) (predicate eps S2 S1).
Proof.
  intros H1 H2. rewrite (predicate_swap eps H1 H2). apply result_equiv_refl.
Qed.

Lemma C6_witness :
  nondegenerate ((0, 0), (4, 4)) /\ nondegenerate ((0, 4), (4, 0)) /\
  result_equiv (predicate 0 ((0, 0), (4, 4)) ((0, 4), (4, 0)))
               (predicate 0 ((0, 4), (4, 0)) ((0, 0), (4, 4))).
Proof.
  assert (N1 : nondegenerate ((0, 0), (4, 4))).
  { unfold nondegenerate, point_eq. cbn. intros [H _]. discriminate H. }
  assert (N2 : nondegenerate ((0, 4), (4, 0))).
  { unfold nondegenerate, point_eq. cbn. intros [H _]. discriminate H. }
  split; [exact N1|]. split; [exact N2|].
  exact (@C6_predicate_symmetric 0 ((0, 0), (4, 4)) ((0, 4), (4, 0)) N1 N2).
Defined.

(** Without the invariant the symmetry is lost: a zero-length segment on
    the line of the other one, outside it, is reported from one side only. *)
Remark zero_length_breaks_symmetry :
  predicate 0 ((0, 2), (0, 2)) ((0, 0), (0, 1)) = PointResult (0, 2) /\
  predicate 0 ((0, 0), (0, 1)) ((0, 2), (0, 2)) = NoResult.
Proof. split; vm_compute; reflexivity. Qed.

(** With exact arithmetic and threshold 0 the solve never fails on a pair
    that passed the straddle test: the determinant is not zero there. *)
Lemma exact_solve_succeeds (A B C D : point) :
  straddles A B C D = true ->
  exists p, solve_crossing 0 A B C D = Returns p.
Proof.
  intro Hstr. unfold straddles in Hstr.
  apply andb_true_iff in Hstr. destruct Hstr as [Hstr _].
  apply negb_true_iff, Z.eqb_neq in Hstr.
  apply straddle_det in Hstr.
  unfold solve_crossing.
  destruct (Qle_bool (Qabs (det A B C D)) 0) eqn:Hle; [|eauto].
  exfalso. apply Hstr. apply Qle_bool_iff in Hle.
  revert Hle. apply Qabs_case; intros; lra.
Qed.

(** The other examples of section 8 of the specification, on the predicate
    with exact arithmetic. *)
Example touching_endpoints :
  predicate 0 ((0, 0), (2, 2)) ((2, 2), (4, 0)) = PointResult (2, 2).
Proof. reflexivity. Qed.

Example proper_crossing :
  predicate 0 ((0, 0), (4, 4)) ((0, 4), (4, 0)) = PointResult (2, 2).
Proof. reflexivity. Qed.

Example disjoint_parallel :
  predicate 0 ((0, 0), (1, 0)) ((0, 1), (1, 1)) = NoResult.
Proof. reflexivity. Qed.

(** C9: the collinear segments (0,0)-(4,0) and (2,0)-(6,0) yield an
    [Overlap] whose sub-segment spans exactly (2,0) to (4,0), whatever the
    threshold. *)
Theorem C9_collinear_overlap (eps : Q) :
  predicate eps ((0, 0), (4, 0)) ((2, 0), (6, 0)) = Overlap (2, 0) (4, 0).
Proof. reflexivity. Qed.

End GeometryClaims.

(** ** The script on the concrete library *)

Module LibraryRuns.

Import Engine Geometry Library EngineClaims.

Example sample_pass_results :
  var_i sample_pass
  = [[Point2D (2, 2)%Q]; [Point2D (2, 2)%Q]; [Segment2D (0, 4)%Q (4, 0)%Q]] /\
  origins sample_pass = [(0, 1); (0, 2); (1, 2)].
Proof. split; vm_compute; reflexivity. Qed.

(** C1 (as stated) fails: the records do not carry the index pair.  On the
    table of three rows whose last two are equal, the pairs (0,1) and (0,2)
    append the same record, the list holding the point (2,2); so no reading
    of the records gives back the pairs that produced them. *)
Lemma C1_counterexample :
  ~ exists index_pair : list entity -> nat * nat,
      map index_pair (var_i sample_pass) = origins sample_pass.
Proof.
  intros [index_pair H].
  destruct sample_pass_results as [Hi Ho]. rewrite Hi, Ho in H.
  cbn [map] in H. injection H as H01 H02 _.
  rewrite H01 in H02. discriminate H02.
Qed.

Lemma C1_witness :
  var_i sample_loaded = [] /\ evals sample_loaded = [] /\
  var_i sample_pass = map snd (filter hit (evals sample_pass)).
Proof.
  split; [reflexivity|]. split; [reflexivity|].
  exact (proj1 (@C1_record_is_the_geometric_result entity intersection
                  sample_loaded eq_refl eq_refl)).
Defined.

(** C2 (as stated) fails: the row (1,1,1,1) is loaded, not rejected.  On a
    table of two rows, the second with equal endpoints, the load loop
    returns a store of two entries, the second being the point (1,1). *)
Lemma C2_counterexample :
  load_store [(0, 0, 4, 4)%Q; (1, 1, 1, 1)%Q]
  = Returns [Segment2D (0, 0)%Q (4, 4)%Q; Point2D (1, 1)%Q] /\
  load_store [(0, 0, 4, 4)%Q; (1, 1, 1, 1)%Q] <> Raises MalformedInputError.
Proof. split; [reflexivity|discriminate]. Qed.

Lemma C2_witness :
  length [(0, 0, 4, 4)%Q; (1, 1, 1, 1)%Q] <> 1 /\
  load_store [(0, 0, 4, 4)%Q; (1, 1, 1, 1)%Q]
  = Returns [Segment2D (0, 0)%Q (4, 4)%Q; Point2D (1, 1)%Q].
Proof.
  assert (H : length [(0, 0, 4, 4)%Q; (1, 1, 1, 1)%Q] <> 1) by discriminate.
  split; [exact H|].
  exact (proj1 (@C2_load_never_rejects Q point entity Point Segment
                  [(0, 0, 4, 4)%Q; (1, 1, 1, 1)%Q] H)).
Defined.

Lemma C3_witness :
  var_i sample_loaded = [] /\ evals sample_loaded = [] /\
  tested sample_pass = [(0, 1); (0, 2); (1, 2)] /\
  length (evals sample_pass) = 3.
Proof.
  split; [reflexivity|]. split; [reflexivity|].
  pose proof (@C3_every_pair_once_in_order entity intersection
                sample_loaded eq_refl eq_refl) as H.
  cbv zeta in H. destruct H as [Ht [_ [_ [Hn _]]]].
  split; [exact Ht|exact Hn].
Defined.

Lemma C4_witness :
  var_i sample_loaded = [] /\ evals sample_loaded = [] /\
  Forall (fun ab => fst ab < snd ab) (tested sample_pass).
Proof.
  split; [reflexivity|]. split; [reflexivity|].
  exact (proj1 (@C4_no_self_pair entity intersection sample_loaded eq_refl eq_refl)).
Defined.

Lemma C5_witness :
  var_i sample_loaded = [] /\ length (var_i sample_pass) <= 3.
Proof.
  split; [reflexivity|].
  exact (@C5_count_bound entity intersection sample_loaded eq_refl).
Defined.

Lemma C7_witness :
  var_s sample_loaded = var_s (print (Banner entity) sample_loaded) /\
  var_i sample_loaded = [] /\
  var_i (print (Banner entity) sample_loaded) = [] /\
  var_i (driver sample_loaded) = var_i (driver (print (Banner entity) sample_loaded)).
Proof.
  split; [reflexivity|]. split; [reflexivity|]. split; [reflexivity|].
  exact (proj1 (@C7_pass_is_deterministic entity intersection sample_loaded
                  (print (Banner entity) sample_loaded) eq_refl eq_refl eq_refl)).
Defined.

End LibraryRuns.

(** ** The command line of [visualize.py] *)

Module VisualizeClaims.

Import Visualize.

Lemma length_user_arguments (argv : list string) :
  length (user_arguments argv) = length argv - 1.
Proof. destruct argv; cbn [user_arguments tl length]; lia. Qed.

Section Claims.

Variables array segment_list bo_point : Type.
Variable loadtxt : string -> outcome array.
Variable reshape_tolist : array -> outcome segment_list.
Variable bentley_ottman : segment_list -> outcome (list bo_point).
Variable xy_array : list bo_point -> array.

Abbreviation run := (Visualize.run loadtxt reshape_tolist bentley_ottman xy_array).
Abbreviation loads_succeed :=
  (Visualize.loads_succeed loadtxt reshape_tolist bentley_ottman).

(** C10: reading the command line raises [Exception("To many input
    arguments!")] if and only if more than two user arguments are given,
    and raises nothing else; the run then ends with that exception.  When
    the loads succeed, the run raises that exception under the same
    condition, and nothing else.  With exactly one user argument and the
    segments loaded from it, the intersections are what [bentley_ottman]
    returns; with exactly two, they are what [np.loadtxt] reads from the
    second, and no run makes a call to the library. *)
Theorem C10_command_line (argv : list string) :
  (argv_handling argv = Raises (Exception "To many input arguments!")
   <-> 2 < length (user_arguments argv)) /\
  (forall e, argv_handling argv = Raises e -> e = Exception "To many input arguments!") /\
  (2 < length (user_arguments argv) ->
   run argv = Raises (Exception "To many input arguments!")) /\
  (loads_succeed ->
   (run argv = Raises (Exception "To many input arguments!")
    <-> 2 < length (user_arguments argv)) /\
   (forall e, run argv = Raises e -> e = Exception "To many input arguments!")) /\
  (length (user_arguments argv) = 1 ->
   forall a segs points,
     loadtxt (argv_at argv 1) = Returns a ->
     reshape_tolist a = Returns segs ->
     bentley_ottman segs = Returns points ->
     run argv = Returns (mkFigure segs (xy_array points)
                                  [Call_loadtxt segment_list (argv_at argv 1);
                                   Call_bentley_ottman segs])) /\
  (length (user_arguments argv) = 2 ->
   (forall a segs i,
       loadtxt (argv_at argv 1) = Returns a ->
       reshape_tolist a = Returns segs ->
       loadtxt (argv_at argv 2) = Returns i ->
       run argv = Returns (mkFigure segs i
                                    [Call_loadtxt segment_list (argv_at argv 1);
                                     Call_loadtxt segment_list (argv_at argv 2)])) /\
   (forall fig, run argv = Returns fig ->
                existsb (@is_library_call segment_list) (calls fig) = false)).
Proof.
  assert (Hplot : loads_succeed -> forall cfg,
             exists fig, plot_data loadtxt reshape_tolist bentley_ottman xy_array cfg
                         = Returns fig).
  { intros [Hl [Hr Hb]] cfg. unfold plot_data.
    destruct (Hl (segments_path cfg)) as [a ->]. cbn [bind].
    destruct (Hr a) as [segs ->]. cbn [bind].
    destruct (use_library cfg).
    - destruct (Hb segs) as [points ->]. cbn [bind]. eauto.
    - destruct (Hl (intersections_path cfg)) as [i ->]. cbn [bind]. eauto. }
  rewrite length_user_arguments.
  unfold Visualize.run, argv_handling.
  destruct (Nat.eqb_spec (length argv) 2) as [H2|H2];
    [|destruct (Nat.eqb_spec (length argv) 3) as [H3|H3];
      [|destruct (Nat.ltb_spec 3 (length argv)) as [H4|H4]]];
    cbn [bind].
  - split; [split; [discriminate|lia]|]. split; [discriminate|].
    split; [lia|]. split; [|split; [|lia]].
    + intro Hok. destruct (Hplot Hok
        (mkSettings (argv_at argv 1) (intersections_path defaults)
                    (use_library defaults))) as [fig ->].
      split; [split; [discriminate|lia]|discriminate].
    + intros _ a segs points Ha Hs Hp. unfold plot_data.
      cbn [segments_path use_library defaults]. rewrite Ha. cbn [bind].
      rewrite Hs. cbn [bind]. rewrite Hp. reflexivity.
  - split; [split; [discriminate|lia]|]. split; [discriminate|].
    split; [lia|]. split; [|split; [lia|]].
    + intro Hok. destruct (Hplot Hok
        (mkSettings (argv_at argv 1) (argv_at argv 2) false)) as [fig ->].
      split; [split; [discriminate|lia]|discriminate].
    + intros _. split.
      * intros a segs i Ha Hs Hi. unfold plot_data.
        cbn [segments_path intersections_path use_library]. rewrite Ha. cbn [bind].
        rewrite Hs. cbn [bind]. rewrite Hi. reflexivity.
      * intros fig. unfold plot_data.
        cbn [segments_path intersections_path use_library].
        destruct (loadtxt (argv_at argv 1)) as [a|e]; [|discriminate]. cbn [bind].
        destruct (reshape_tolist a) as [segs|e]; [|discriminate]. cbn [bind].
        destruct (loadtxt (argv_at argv 2)) as [i|e]; [|discriminate]. cbn [bind].
        intro H. injection H as <-. reflexivity.
  - split; [split; [intros _; lia|intros _; reflexivity]|].
    split; [intros e He; injection He as <-; reflexivity|].
    split; [intros _; reflexivity|]. split; [|split; lia].
    intros _. split; [split; [intros _; lia|intros _; reflexivity]|].
    intros e He. injection He as <-. reflexivity.
  - split; [split; [discriminate|lia]|]. split; [discriminate|].
    split; [lia|]. split; [|split; lia].
    intro Hok. destruct (Hplot Hok defaults) as [fig ->].
    split; [split; [discriminate|lia]|discriminate].
Qed.

End Claims.

Lemma C10_witness :
  let argv := ["visualize.py"; "s.dat"; "i.dat"]%string in
  length (user_arguments argv) = 2 /\
  Visualize.run (fun path => Returns path) (fun a => Returns a)
                (fun _ : string => Returns [tt])
                (fun _ => "library"%string) argv
  = Returns (mkFigure "s.dat"%string "i.dat"%string
                      [Call_loadtxt string "s.dat"; Call_loadtxt string "i.dat"]).
Proof.
  cbv zeta. split; [reflexivity|].
  exact (proj1 (proj2 (proj2 (proj2 (proj2 (proj2
    (@C10_command_line string string unit (fun path => Returns path)
       (fun a => Returns a) (fun _ : string => Returns [tt])
       (fun _ => "library"%string)
       ["visualize.py"; "s.dat"; "i.dat"]%string))))) eq_refl)
    "s.dat"%string "s.dat"%string "i.dat"%string eq_refl eq_refl eq_refl).
Defined.

End VisualizeClaims.

(** ** What the pass prints: lemmas *)

Module EngineOutputFacts.

Import Engine DriverFacts EngineOutput.

Section Facts.

Variable Entity : Type.
Variable intersection : Entity -> Entity -> list Entity.

Abbreviation state := (Engine.state Entity).
Abbreviation outer_body := (Engine.outer_body intersection).
Abbreviation driver := (Engine.driver intersection).
Abbreviation row_evals := (Engine.row_evals intersection).
Abbreviation all_evals := (Engine.all_evals intersection).
Abbreviation running_counts := (EngineOutput.running_counts intersection).
Abbreviation intersects := (EngineOutput.intersects intersection).
Abbreviation results := (EngineOutput.results intersection).

Lemma outer_body_stdout (st : state) (iv : nat * Entity) :
  stdout (outer_body st iv)
  = stdout st ++ [PrintIndex Entity (fst iv);
                  PrintCount Entity (length (var_i (outer_body st iv)))].
Proof.
  destruct iv as [index segment].
  destruct (inner_loop intersection index segment (enumerate (var_s st)) st) as [Hout _].
  unfold Engine.outer_body.
  cbn [stdout print var_i fst]. rewrite Hout, <- app_assoc. reflexivity.
Qed.

Lemma outer_loop_stdout (l : list Entity) (ivs : list (nat * Entity)) :
  forall st : state,
    var_s st = l ->
    stdout (fold_left outer_body ivs st)
    = stdout st ++ progress_lines Entity (map fst ivs)
                     (running_counts l (length (var_i st)) ivs).
Proof.
  induction ivs as [|iv ivs IH]; intros st Hl; cbn [fold_left map running_counts].
  - unfold progress_lines. cbn. rewrite app_nil_r. reflexivity.
  - destruct (outer_body_extends intersection st iv) as [Hs [_ Hi]].
    rewrite IH by congruence.
    rewrite outer_body_stdout, Hi, length_app, length_map, Hl, <- app_assoc.
    reflexivity.
Qed.

Lemma length_running_counts (l : list Entity) (ivs : list (nat * Entity)) (c : nat) :
  length (running_counts l c ivs) = length ivs.
Proof.
  revert c. induction ivs as [|iv ivs IH]; intro c; cbn [running_counts length].
  - reflexivity.
  - rewrite IH. reflexivity.
Qed.

Lemma length_progress_lines (indices counts : list nat) :
  length indices = length counts ->
  length (progress_lines Entity indices counts) = 2 * length indices.
Proof.
  unfold progress_lines. revert counts.
  induction indices as [|k indices IH]; intros [|c counts] H; try discriminate.
  - reflexivity.
  - cbn [combine flat_map app length]. rewrite IH by (simpl in H; lia). lia.
Qed.

Lemma progress_lines_nth (indices counts : list nat) (k i c : nat) :
  nth_error indices k = Some i -> nth_error counts k = Some c ->
  nth_error (progress_lines Entity indices counts) (2 * k) = Some (PrintIndex Entity i) /\
  nth_error (progress_lines Entity indices counts) (2 * k + 1) = Some (PrintCount Entity c).
Proof.
  unfold progress_lines. revert indices counts.
  induction k as [|k IH]; intros [|i0 indices] [|c0 counts] Hi Hc;
    try discriminate; cbn [nth_error] in Hi, Hc.
  - injection Hi as ->. injection Hc as ->. split; reflexivity.
  - destruct (IH indices counts Hi Hc) as [H1 H2].
    replace (2 * S k) with (S (S (2 * k))) by lia.
    replace (S (S (2 * k)) + 1) with (S (S (2 * k + 1))) by lia.
    cbn [combine flat_map app nth_error fst snd]. split; assumption.
Qed.

(** The counts never decrease, and the last one counts every result. *)
Lemma running_counts_sorted (l : list Entity) (ivs : list (nat * Entity)) (c : nat) :
  StronglySorted le (c :: running_counts l c ivs).
Proof.
  revert c. induction ivs as [|iv ivs IH]; intro c; cbn [running_counts].
  - repeat constructor.
  - specialize (IH (c + length (filter hit (row_evals l iv)))).
    constructor; [exact IH|].
    apply StronglySorted_inv in IH. destruct IH as [_ IH].
    constructor; [lia|].
    rewrite Forall_forall in *. intros x Hx. specialize (IH x Hx). lia.
Qed.

Lemma last_cons {A : Type} (r : list A) (x d : A) : last (x :: r) d = last r x.
Proof.
  revert x d. induction r as [|a r IH]; intros x d; [reflexivity|].
  change (last (x :: a :: r) d) with (last (a :: r) d).
  rewrite (IH a d), (IH a x). reflexivity.
Qed.

Lemma running_counts_last (l : list Entity) (ivs : list (nat * Entity)) (c : nat) :
  last (running_counts l c ivs) c
  = c + length (filter hit (flat_map (row_evals l) ivs)).
Proof.
  revert c. induction ivs as [|iv ivs IH]; intro c.
  - cbn. lia.
  - cbn [running_counts flat_map]. rewrite filter_app, length_app, last_cons, IH. lia.
Qed.

Lemma running_counts_nth (l : list Entity) (ivs : list (nat * Entity)) (c k : nat) :
  k < length ivs ->
  nth k (running_counts l c ivs) 0
  = c + length (filter hit (flat_map (row_evals l) (firstn (S k) ivs))).
Proof.
  revert c k. induction ivs as [|iv ivs IH]; intros c k Hk; cbn [length] in Hk.
  - lia.
  - cbn [running_counts]. destruct k as [|k].
    + cbn [nth firstn flat_map]. rewrite app_nil_r. reflexivity.
    + cbn [nth]. rewrite IH by lia.
      change (firstn (S (S k)) (iv :: ivs)) with (iv :: firstn (S k) ivs).
      cbn [flat_map]. rewrite filter_app, length_app. lia.
Qed.

Lemma filter_rows (l : list Entity) (k : nat) (ivs : list (nat * Entity)) :
  filter (fun e => fst (fst e) <=? k) (flat_map (row_evals l) ivs)
  = flat_map (row_evals l) (filter (fun iv => fst iv <=? k) ivs).
Proof.
  induction ivs as [|iv ivs IH]; cbn [flat_map filter]; [reflexivity|].
  rewrite filter_app, IH.
  assert (Hrow : forall e, In e (row_evals l iv) -> fst (fst e) = fst iv).
  { intros e He. unfold Engine.row_evals in He.
    apply in_map_iff in He. destruct He as [jv [<- _]]. reflexivity. }
  destruct (fst iv <=? k) eqn:Hk; cbn [flat_map].
  - f_equal. apply forallb_filter_id. apply forallb_forall.
    intros e He. rewrite (Hrow e He). exact Hk.
  - replace (filter (fun e => fst (fst e) <=? k) (row_evals l iv)) with
      (@nil (nat * nat * list Entity)); [reflexivity|].
    symmetry. induction (row_evals l iv) as [|e es IHes]; [reflexivity|].
    cbn [filter]. rewrite (Hrow e (or_introl eq_refl)), Hk.
    apply IHes. intros e' He'. apply Hrow. right. exact He'.
Qed.

Lemma filter_enumerate_prefix {A : Type} (l : list A) (k : nat) :
  filter (fun iv => fst iv <=? k) (enumerate l) = firstn (S k) (enumerate l).
Proof.
  unfold enumerate.
  assert (H : forall b, filter (fun iv : nat * A => fst iv <=? k)
                               (combine (seq b (length l)) l)
                        = firstn (S k - b) (combine (seq b (length l)) l)).
  { induction l as [|x l IH]; intro b; cbn [length seq combine filter fst].
    - rewrite firstn_nil. reflexivity.
    - rewrite IH. destruct (Nat.leb_spec b k) as [Hle|Hlt].
      + replace (S k - b) with (S (k - b)) by lia.
        replace (S k - S b) with (k - b) by lia. reflexivity.
      + replace (S k - b) with 0 by lia.
        replace (S k - S b) with 0 by lia. reflexivity. }
  rewrite H. rewrite Nat.sub_0_r. reflexivity.
Qed.

Lemma hit_is_intersects (l : list Entity) :
  Forall (fun e => hit e = intersects l (fst e)) (all_evals l).
Proof.
  apply Forall_forall. intros [[a b] p] Hin.
  destruct (all_evals_sound _ _ _ _ _ Hin) as [x [y [Hx [Hy Hp]]]].
  unfold EngineOutput.intersects, hit. cbn [fst snd]. rewrite Hx, Hy, Hp. reflexivity.
Qed.

Lemma map_fst_filter_agree {A B : Type} (f : A * B -> bool) (g : A -> bool)
      (es : list (A * B)) :
  Forall (fun e => f e = g (fst e)) es ->
  map fst (filter f es) = filter g (map fst es).
Proof.
  induction 1 as [|e es He _ IH]; cbn [filter map]; [reflexivity|].
  rewrite <- He. destruct (f e); cbn [map]; rewrite IH; reflexivity.
Qed.

(** The pairs whose results are kept are the intersecting pairs. *)
Lemma kept_pairs (l : list Entity) :
  map fst (filter hit (all_evals l)) = filter (intersects l) (pairs (length l)).
Proof.
  rewrite <- (map_fst_all_evals intersection).
  apply map_fst_filter_agree, hit_is_intersects.
Qed.

Lemma kept_pairs_upto (l : list Entity) (k : nat) :
  map fst (filter hit (flat_map (row_evals l) (firstn (S k) (enumerate l))))
  = filter (fun ab => fst ab <=? k) (filter (intersects l) (pairs (length l))).
Proof.
  rewrite <- filter_enumerate_prefix, <- filter_rows, <- kept_pairs.
  unfold Engine.all_evals.
  generalize (flat_map (row_evals l) (enumerate l)) as es.
  induction es as [|e es IH]; cbn [filter map]; [reflexivity|].
  destruct (fst (fst e) <=? k) eqn:Hk; destruct (hit e) eqn:Hh;
    cbn [filter map]; rewrite ?Hk, ?Hh; cbn [map]; rewrite IH; reflexivity.
Qed.

Lemma length_results (l : list Entity) :
  length (results l) = length (filter (intersects l) (pairs (length l))).
Proof.
  unfold EngineOutput.results. rewrite <- kept_pairs, !length_map. reflexivity.
Qed.

Lemma filter_all_iff {A : Type} (f : A -> bool) (l : list A) :
  length (filter f l) = length l <-> forall x, In x l -> f x = true.
Proof.
  induction l as [|a l IH]; cbn [filter length In].
  - split; [intros _ x []|reflexivity].
  - pose proof (length_filter_le f l) as Hle.
    destruct (f a) eqn:Ha; cbn [length].
    + split.
      * intros H x [<-|Hx]; [exact Ha|]. apply IH; [lia|exact Hx].
      * intro H. f_equal. apply IH. intros x Hx. apply H. right. exact Hx.
    + split; [lia|]. intro H. specialize (H a (or_introl eq_refl)). congruence.
Qed.

Lemma filter_none_iff {A : Type} (f : A -> bool) (l : list A) :
  filter f l = [] <-> forall x, In x l -> f x = false.
Proof.
  induction l as [|a l IH]; cbn [filter In].
  - split; [intros _ x []|reflexivity].
  - destruct (f a) eqn:Ha.
    + split; [discriminate|]. intro H. specialize (H a (or_introl eq_refl)). congruence.
    + rewrite IH. split.
      * intros H x [<-|Hx]; [exact Ha|apply H; exact Hx].
      * intros H x Hx. apply H. right. exact Hx.
Qed.

End Facts.

End EngineOutputFacts.

(** ** The pass and the whole script: further properties *)

Module EngineExtras.

Import Engine DriverFacts EngineOutput EngineOutputFacts.

Section Extras.

Variables Coord Pt Entity : Type.
Variable Point : Coord * Coord -> Pt.
Variable Segment : Pt -> Pt -> Entity.
Variable intersection : Entity -> Entity -> list Entity.

Abbreviation state := (Engine.state Entity).
Abbreviation driver := (Engine.driver intersection).
Abbreviation all_evals := (Engine.all_evals intersection).
Abbreviation running_counts := (EngineOutput.running_counts intersection).
Abbreviation intersects := (EngineOutput.intersects intersection).
Abbreviation results := (EngineOutput.results intersection).
Abbreviation entity_of_row := (Engine.entity_of_row Point Segment).

Lemma driver_results (st : state) :
  var_s (driver st) = var_s st /\
  var_i (driver st) = var_i st ++ results (var_s st).
Proof.
  destruct (driver_extends intersection st) as [Hs [_ Hi]]. auto.
Qed.

Lemma driver_stdout (st : state) :
  stdout (driver st)
  = stdout st ++ progress_lines Entity (seq 0 (length (var_s st)))
                   (running_counts (var_s st) (length (var_i st))
                                   (enumerate (var_s st))).
Proof.
  unfold Engine.driver.
  rewrite (outer_loop_stdout intersection (enumerate (var_s st)) st eq_refl).
  rewrite enumerate_fst. reflexivity.
Qed.

Lemma length_enumerate {A : Type} (l : list A) : length (enumerate l) = length l.
Proof. rewrite <- (length_map fst), enumerate_fst, length_seq. reflexivity. Qed.

(** X1: a pass prints, for each index 0, 1, ..., N-1 in turn, the index and
    then a count, and nothing else: 2 N lines in all. *)
Theorem X1_progress_lines (st : state) :
  let n := length (var_s st) in
  let counts := running_counts (var_s st) (length (var_i st)) (enumerate (var_s st)) in
  stdout (driver st) = stdout st ++ progress_lines Entity (seq 0 n) counts /\
  length counts = n /\
  length (stdout (driver st)) = length (stdout st) + 2 * n.
Proof.
  cbv zeta. rewrite driver_stdout.
  assert (Hlen : length (running_counts (var_s st) (length (var_i st))
                                        (enumerate (var_s st)))
                 = length (var_s st)).
  { rewrite length_running_counts. apply length_enumerate. }
  split; [reflexivity|]. split; [exact Hlen|].
  rewrite length_app, length_progress_lines, length_seq;
    [reflexivity|rewrite length_seq, Hlen; reflexivity].
Qed.

(** X2: for k < N, the 2 k-th and the next of the lines a pass prints are
    the index k and a count; that count is the length of [i] before the
    pass plus the number of pairs (a, b), a < b, of stored entities with a
    non-empty intersection and a <= k. *)
Theorem X2_count_after_index (st : state) (k : nat) :
  k < length (var_s st) ->
  let shown := length (stdout st) in
  let count := length (var_i st)
               + length (filter (fun ab => fst ab <=? k)
                                (filter (intersects (var_s st))
                                        (pairs (length (var_s st))))) in
  nth_error (stdout (driver st)) (shown + 2 * k) = Some (PrintIndex Entity k) /\
  nth_error (stdout (driver st)) (shown + 2 * k + 1) = Some (PrintCount Entity count) /\
  nth k (running_counts (var_s st) (length (var_i st)) (enumerate (var_s st))) 0 = count.
Proof.
  intro Hk. cbv zeta.
  assert (Hnth : nth k (running_counts (var_s st) (length (var_i st))
                                       (enumerate (var_s st))) 0
                 = length (var_i st)
                   + length (filter (fun ab => fst ab <=? k)
                                    (filter (intersects (var_s st))
                                            (pairs (length (var_s st)))))).
  { rewrite running_counts_nth by (rewrite length_enumerate; exact Hk).
    rewrite <- kept_pairs_upto, length_map. reflexivity. }
  rewrite driver_stdout.
  rewrite <- Nat.add_assoc.
  rewrite !nth_error_app2 by lia.
  replace (length (stdout st) + 2 * k - length (stdout st)) with (2 * k) by lia.
  replace (length (stdout st) + (2 * k + 1) - length (stdout st)) with (2 * k + 1) by lia.
  rewrite <- Hnth.
  assert (Hi : nth_error (seq 0 (length (var_s st))) k = Some k).
  { rewrite nth_error_nth' with (d := 0) by (rewrite length_seq; exact Hk).
    rewrite seq_nth by exact Hk. reflexivity. }
  assert (Hc : nth_error (running_counts (var_s st) (length (var_i st))
                                         (enumerate (var_s st))) k
               = Some (nth k (running_counts (var_s st) (length (var_i st))
                                             (enumerate (var_s st))) 0)).
  { apply nth_error_nth'. rewrite length_running_counts, length_enumerate. exact Hk. }
  destruct (progress_lines_nth Entity _ _ _ Hi Hc) as [H1 H2].
  split; [exact H1|]. split; [exact H2|reflexivity].
Qed.

(** X3: the printed counts never decrease, none is below the length of [i]
    before the pass, and the last one is the length of [i] after it. *)
Theorem X3_counts_grow_to_total (st : state) :
  let counts := running_counts (var_s st) (length (var_i st)) (enumerate (var_s st)) in
  stdout (driver st)
  = stdout st ++ progress_lines Entity (seq 0 (length (var_s st))) counts /\
  StronglySorted le (length (var_i st) :: counts) /\
  last counts (length (var_i st)) = length (var_i (driver st)).
Proof.
  cbv zeta. split; [apply driver_stdout|]. split; [apply running_counts_sorted|].
  rewrite running_counts_last.
  destruct (driver_results st) as [_ ->].
  rewrite length_app. unfold EngineOutput.results. rewrite length_map. reflexivity.
Qed.

(** X4: the pairs whose result a pass keeps are exactly the pairs a < b < N
    of stored entities whose intersection is non-empty, in enumeration
    order, and [i] grows by their number. *)
Theorem X4_kept_pairs_are_the_intersecting_pairs (st : state) :
  evals st = [] ->
  origins (driver st) = filter (intersects (var_s st)) (pairs (length (var_s st))) /\
  length (var_i (driver st))
  = length (var_i st)
    + length (filter (intersects (var_s st)) (pairs (length (var_s st)))).
Proof.
  intro He.
  destruct (driver_extends intersection st) as [_ [He' _]].
  rewrite He in He'. cbn [app] in He'.
  split.
  - unfold origins. rewrite He'. apply kept_pairs.
  - destruct (driver_results st) as [_ ->].
    rewrite length_app, length_results. reflexivity.
Qed.

(** X5: a pass leaves [i] as it was exactly when no pair of stored entities
    intersects, and it adds the full N (N - 1) / 2 results exactly when
    every pair does. *)
Theorem X5_no_result_and_every_result (st : state) :
  let n := length (var_s st) in
  (var_i (driver st) = var_i st
   <-> forall a b, a < b < n -> intersects (var_s st) (a, b) = false) /\
  (length (var_i (driver st)) = length (var_i st) + n * (n - 1) / 2
   <-> forall a b, a < b < n -> intersects (var_s st) (a, b) = true).
Proof.
  cbv zeta. destruct (driver_results st) as [_ Hi]. rewrite Hi. split.
  - rewrite <- (app_nil_r (var_i st)) at 2.
    split.
    + intros H a b Hab. apply app_inv_head in H.
      assert (Hn : filter (intersects (var_s st)) (pairs (length (var_s st))) = []).
      { apply length_zero_iff_nil. rewrite <- length_results, H. reflexivity. }
      rewrite filter_none_iff in Hn. apply Hn. apply PairFacts.in_pairs. exact Hab.
    + intro H. f_equal. apply length_zero_iff_nil. rewrite length_results.
      apply length_zero_iff_nil. apply filter_none_iff.
      intros [a b] Hin. apply H. apply PairFacts.in_pairs. exact Hin.
  - rewrite length_app, length_results, <- PairFacts.length_pairs.
    rewrite Nat.add_cancel_l, filter_all_iff. split.
    + intros H a b Hab. apply H. apply PairFacts.in_pairs. exact Hab.
    + intros H [a b] Hin. apply H. apply PairFacts.in_pairs. exact Hin.
Qed.

(** X6: the loop never resets [i].  A second pass over the same store,
    without the assignment of line 7 in between, appends the same results
    once more. *)
Theorem X6_second_pass_appends_again (st : state) :
  var_s (driver (driver st)) = var_s st /\
  var_i (driver (driver st))
  = var_i st ++ results (var_s st) ++ results (var_s st).
Proof.
  destruct (driver_results st) as [Hs Hi].
  destruct (driver_results (driver st)) as [Hs' Hi'].
  rewrite Hs', Hi', Hs, Hi, <- app_assoc. auto.
Qed.

(** X7: on a store of at most one entity a pass calls [intersection] not
    once and leaves [i] as it was. *)
Theorem X7_small_store_no_call (st : state) :
  length (var_s st) <= 1 ->
  evals (driver st) = evals st /\ var_i (driver st) = var_i st.
Proof.
  intro Hn.
  assert (Hnil : all_evals (var_s st) = []).
  { apply length_zero_iff_nil. rewrite length_all_evals.
    destruct (length (var_s st)) as [|[|n]]; [reflexivity|reflexivity|lia]. }
  destruct (driver_extends intersection st) as [_ [He Hi]].
  rewrite Hnil in He, Hi. cbn [filter map] in Hi.
  rewrite app_nil_r in He, Hi. auto.
Qed.

(** X8: the whole script.  On a data file of N rows, N other than 1, it
    returns with the store holding the entity of each row in file order,
    with [i] holding the results of one pass, and with standard output made
    of the banner, the 2 N progress lines, the list [i] and its length:
    2 N + 3 lines. *)
Theorem X8_whole_script (segments : list (row Coord)) :
  length segments <> 1 ->
  let l := map entity_of_row segments in
  let n := length segments in
  exists st,
    main Point Segment intersection segments = Returns st /\
    var_s st = l /\
    var_i st = results l /\
    stdout st = Banner Entity
                  :: progress_lines Entity (seq 0 n) (running_counts l 0 (enumerate l))
                  ++ [PrintResults (results l); PrintLen Entity (length (results l))] /\
    length (stdout st) = 2 * n + 3.
Proof.
  intro Hrows. cbv zeta.
  exists (report (Engine.driver intersection (load Point Segment segments (init Entity)))).
  split.
  { destruct segments as [|r [|r' segments]]; [reflexivity| |reflexivity].
    exfalso. apply Hrows. reflexivity. }
  destruct (EngineClaims.load_appends Point Segment segments (init Entity))
    as [Hs [Hi [_ Ho]]].
  cbn [init var_s var_i stdout app] in Hs, Hi, Ho.
  set (st0 := load Point Segment segments (init Entity)) in *.
  destruct (driver_results st0) as [Hs' Hi'].
  pose proof (driver_stdout st0) as Ho'.
  rewrite Hs, Hi, Ho in *. cbn [app length] in *. rewrite length_map in Ho'.
  unfold report. cbn [var_s var_i stdout print].
  rewrite Hs', Hi', Ho'.
  split; [reflexivity|]. split; [reflexivity|]. split.
  - cbn [app]. rewrite <- app_assoc. reflexivity.
  - rewrite !length_app. cbn [length].
    rewrite length_progress_lines; rewrite length_seq;
      [lia|rewrite length_running_counts, length_enumerate, length_map; reflexivity].
Qed.

End Extras.

End EngineExtras.

(** ** The arrays and the figure of [visualize.py] *)

Module NumpyFacts.

Import Numpy.

Section Facts.

Variable Coord : Type.

Lemma chunks_of_4n (n : nat) :
  forall l : list Coord,
    length l = n * 4 ->
    length (chunks_2_2 l) = n /\
    Forall two_by_two (chunks_2_2 l) /\
    concat (concat (chunks_2_2 l)) = l.
Proof.
  induction n as [|n IH]; intros l Hlen.
  - destruct l; [|discriminate]. repeat split; constructor.
  - destruct l as [|a [|b [|c [|d rest]]]]; try discriminate.
    cbn [length] in Hlen.
    destruct (IH rest ltac:(lia)) as [Hn [Hs Hc]].
    cbn [chunks_2_2 length concat app]. split; [|split].
    + rewrite Hn. reflexivity.
    + constructor; [|exact Hs]. exists a, b, c, d. reflexivity.
    + rewrite Hc. reflexivity.
Qed.

Lemma length_ravel (a : ndarray Coord) :
  well_formed a -> length (ravel a) = size a.
Proof.
  destruct a as [x|l|cols rows]; cbn [well_formed ravel size length];
    [reflexivity|reflexivity|].
  induction 1 as [|r rows Hr _ IH]; cbn [concat length]; [reflexivity|].
  rewrite length_app, IH, Hr. lia.
Qed.

Lemma length_column (k cols : nat) (rows : list (list Coord)) :
  Forall (fun r => length r = cols) rows -> k < cols ->
  column k (Array2 cols rows)
  = inr (flat_map (fun r => match nth_error r k with
                            | Some x => [x]
                            | None => []
                            end) rows) /\
  length (flat_map (fun r => match nth_error r k with
                             | Some x => [x]
                             | None => []
                             end) rows) = length rows.
Proof.
  intros Hwf Hk. cbn [column].
  destruct (Nat.ltb_spec k cols) as [_|H]; [|lia]. split; [reflexivity|].
  induction Hwf as [|r rows Hr _ IH]; cbn [flat_map length]; [reflexivity|].
  rewrite length_app, IH.
  destruct (nth_error r k) eqn:E; [reflexivity|].
  apply nth_error_None in E. lia.
Qed.

Lemma reshape_ok (a : ndarray Coord) (segs : list (list (list Coord))) :
  well_formed a ->
  reshape_tolist a = inr segs ->
  shape0 a = inr (length segs) /\
  Forall two_by_two segs /\
  concat (concat segs) = ravel a.
Proof.
  intros Hwf. unfold reshape_tolist.
  destruct (shape0 a) as [e|n] eqn:Hn; [discriminate|].
  destruct (Nat.eqb_spec (size a) (n * 2 * 2)) as [Hsize|]; [|discriminate].
  intro H. injection H as <-.
  destruct (chunks_of_4n n (ravel a)) as [Hlen [Hs Hc]].
  { rewrite length_ravel by exact Hwf. lia. }
  rewrite Hlen. auto.
Qed.

Lemma columns_of_points (p : Coord * Coord) (pts : list (Coord * Coord)) :
  column 0 (array_of_points (p :: pts)) = inr (map fst (p :: pts)) /\
  column 1 (array_of_points (p :: pts)) = inr (map snd (p :: pts)) /\
  len (array_of_points (p :: pts)) = inr (length (p :: pts)).
Proof.
  cbn [array_of_points]. generalize (p :: pts) as l. intro l.
  unfold column, len. cbn [Nat.ltb Nat.leb]. rewrite length_map.
  split; [|split]; [| |reflexivity]; f_equal.
  - induction l as [|q l IH]; cbn [map flat_map nth_error app]; [reflexivity|].
    f_equal. exact IH.
  - induction l as [|q l IH]; cbn [map flat_map nth_error app]; [reflexivity|].
    f_equal. exact IH.
Qed.

End Facts.

End NumpyFacts.

Module VisualizeExtras.

Import Visualize Numpy NumpyFacts VisualizeFigure.

(** X9: a run that returns makes exactly two data-producing calls.  The
    first loads the segments, from the first user argument if there is one
    and from the default path otherwise; the second is the sweep-line
    library on those segments, unless exactly two user arguments are given,
    in which case it loads the second one. *)
Theorem X9_data_calls
        (array segment_list bo_point : Type)
        (loadtxt : string -> outcome array)
        (reshape_tolist : array -> outcome segment_list)
        (bentley_ottman : segment_list -> outcome (list bo_point))
        (xy_array : list bo_point -> array) (argv : list string) :
  let n := length (user_arguments argv) in
  let path := if 1 <=? n then argv_at argv 1 else segments_path defaults in
  forall fig,
    Visualize.run loadtxt reshape_tolist bentley_ottman xy_array argv = Returns fig ->
    n <= 2 /\
    (exists a, loadtxt path = Returns a /\ reshape_tolist a = Returns (segments fig)) /\
    calls fig = [Call_loadtxt segment_list path;
                 if n =? 2 then Call_loadtxt segment_list (argv_at argv 2)
                 else Call_bentley_ottman (segments fig)] /\
    (if n =? 2 then loadtxt (argv_at argv 2) = Returns (intersections fig)
     else exists points, bentley_ottman (segments fig) = Returns points /\
                         intersections fig = xy_array points).
Proof.
  cbv zeta. rewrite VisualizeClaims.length_user_arguments.
  intros fig. unfold Visualize.run, argv_handling.
  destruct (Nat.eqb_spec (length argv) 2) as [H2|H2];
    [|destruct (Nat.eqb_spec (length argv) 3) as [H3|H3];
      [|destruct (Nat.ltb_spec 3 (length argv)) as [H4|H4]]];
    cbn [bind]; try discriminate; unfold plot_data;
    cbn [use_library segments_path intersections_path defaults].
  - rewrite H2. cbn [Nat.sub Nat.leb Nat.eqb].
    destruct (loadtxt (argv_at argv 1)) as [a|e]; [|discriminate]. cbn [bind].
    destruct (reshape_tolist a) as [segs|e] eqn:Hs; [|discriminate]. cbn [bind].
    destruct (bentley_ottman segs) as [points|e] eqn:Hp; [|discriminate]. cbn [bind].
    intro H. injection H as <-. cbn [segments calls intersections app].
    split; [lia|]. split; [eauto|]. split; [reflexivity|eauto].
  - rewrite H3. cbn [Nat.sub Nat.leb Nat.eqb].
    destruct (loadtxt (argv_at argv 1)) as [a|e]; [|discriminate]. cbn [bind].
    destruct (reshape_tolist a) as [segs|e] eqn:Hs; [|discriminate]. cbn [bind].
    destruct (loadtxt (argv_at argv 2)) as [i|e] eqn:Hi; [|discriminate]. cbn [bind].
    intro H. injection H as <-. cbn [segments calls intersections app].
    split; [lia|]. split; [eauto|]. split; reflexivity.
  - assert (Hn : length argv - 1 = 0) by lia.
    assert (Hle : (1 <=? length argv - 1) = false) by (rewrite Hn; reflexivity).
    assert (Heq : (length argv - 1 =? 2) = false) by (rewrite Hn; reflexivity).
    rewrite Hle, Heq.
    destruct (loadtxt _) as [a|e]; [|discriminate]. cbn [bind].
    destruct (reshape_tolist a) as [segs|e] eqn:Hs; [|discriminate]. cbn [bind].
    destruct (bentley_ottman segs) as [points|e] eqn:Hp; [|discriminate]. cbn [bind].
    intro H. injection H as <-. cbn [segments calls intersections app].
    split; [lia|]. split; [eauto|]. split; [reflexivity|eauto].
Qed.

(** X10: the default intersections file is never read.  A run loads the
    path "../data/s_1000_10_intersections.dat" only if the user passed it
    on the command line. *)
Theorem X10_default_intersections_path_unused
        (array segment_list bo_point : Type)
        (loadtxt : string -> outcome array)
        (reshape_tolist : array -> outcome segment_list)
        (bentley_ottman : segment_list -> outcome (list bo_point))
        (xy_array : list bo_point -> array) (argv : list string) :
  forall fig,
    Visualize.run loadtxt reshape_tolist bentley_ottman xy_array argv = Returns fig ->
    In (Call_loadtxt segment_list (intersections_path defaults)) (calls fig) ->
    In (intersections_path defaults) (user_arguments argv).
Proof.
  intros fig. unfold Visualize.run, argv_handling.
  destruct (Nat.eqb_spec (length argv) 2) as [H2|H2];
    [|destruct (Nat.eqb_spec (length argv) 3) as [H3|H3];
      [|destruct (Nat.ltb_spec 3 (length argv)) as [H4|H4]]];
    cbn [bind]; try discriminate; unfold plot_data;
    cbn [use_library segments_path intersections_path defaults];
    (destruct (loadtxt _) as [a|e]; [|discriminate]); cbn [bind];
    (destruct (reshape_tolist a) as [segs|e]; [|discriminate]); cbn [bind].
  - destruct (bentley_ottman segs) as [points|e]; [|discriminate]. cbn [bind].
    intro H. injection H as <-. cbn [calls app In].
    intros [Hin|[Hin|[]]]; try discriminate Hin. injection Hin as Hin.
    destruct argv as [|a0 [|a1 [|a2 argv]]]; try discriminate H2.
    cbn in *. left. exact Hin.
  - destruct (loadtxt (argv_at argv 2)) as [i|e]; [|discriminate]. cbn [bind].
    intro H. injection H as <-. cbn [calls app In].
    destruct argv as [|a0 [|a1 [|a2 [|a3 argv]]]]; try discriminate H3.
    intros [Hin|[Hin|[]]]; injection Hin as Hin; cbn in *.
    + left. exact Hin.
    + right. left. exact Hin.
  - destruct (bentley_ottman segs) as [points|e]; [|discriminate]. cbn [bind].
    intro H. injection H as <-. cbn [calls app In].
    intros [Hin|[Hin|[]]]; discriminate Hin.
Qed.

Section Figure.

Variable Coord : Type.
Variable loadtxt : string -> ndarray Coord.
Variable bentley_ottman : list (list (list Coord)) -> list (Coord * Coord).

Abbreviation draw := (VisualizeFigure.draw loadtxt bentley_ottman).

(** X11: the reshape of line 21 is a regrouping.  When it succeeds on a
    rectangular array, the list has one entry per row of the array, each
    entry is two points of two coordinates, and flattening the list gives
    back the entries of the array in order. *)
Theorem X11_reshape_regroups (a : ndarray Coord) (segs : list (list (list Coord))) :
  well_formed a ->
  reshape_tolist a = inr segs ->
  shape0 a = inr (length segs) /\
  Forall (@two_by_two Coord) segs /\
  concat (concat segs) = ravel a.
Proof. apply reshape_ok. Qed.

(** X12: when the reshape of line 21 succeeds.  On a 2-dimensional array
    it needs four columns (or no row at all) and raises [ValueError]
    otherwise; on a 1-dimensional array it raises [ValueError] unless the
    array is empty; on a 0-dimensional array reading the shape raises
    [IndexError]. *)
Theorem X12_reshape_needs_four_columns :
  (forall cols (rows : list (list Coord)),
      reshape_tolist (Array2 cols rows)
      = if (cols =? 4) || (length rows =? 0)
        then inr (chunks_2_2 (concat rows)) else inl ValueError) /\
  (forall l : list Coord,
      reshape_tolist (Array1 l)
      = match l with [] => inr [] | _ :: _ => inl ValueError end) /\
  (forall x : Coord, reshape_tolist (Array0 x) = inl IndexError).
Proof.
  split; [|split].
  - intros cols rows. unfold reshape_tolist. cbn [shape0 size ravel].
    destruct (Nat.eqb_spec cols 4) as [->|Hc]; cbn [orb].
    + replace (length rows * 4 =? length rows * 2 * 2) with true; [reflexivity|].
      symmetry. apply Nat.eqb_eq. lia.
    + destruct (Nat.eqb_spec (length rows) 0) as [H0|H0].
      * rewrite H0. reflexivity.
      * destruct (Nat.eqb_spec (length rows * cols) (length rows * 2 * 2)) as [H|H];
          [|reflexivity].
        exfalso. apply Hc. nia.
  - intros [|x l]; [reflexivity|]. unfold reshape_tolist. cbn [shape0 size ravel].
    destruct (Nat.eqb_spec (length (x :: l)) (length (x :: l) * 2 * 2)) as [H|H];
      [cbn [length] in H; lia|reflexivity].
  - reflexivity.
Qed.

(** X13: with the library in use and the segments reshaped, the figure
    depends on the points the library returns.  With no point the run ends
    in [IndexError] at line 31; otherwise the markers are the x and the y
    coordinates of the points, in order, and the title counts the segments
    and the points. *)
Theorem X13_library_figure (cfg : settings) (segs : list (list (list Coord))) :
  use_library cfg = true ->
  reshape_tolist (loadtxt (segments_path cfg)) = inr segs ->
  draw cfg
  = match bentley_ottman segs with
    | [] => inl (NumpyError IndexError)
    | _ :: _ =>
        inr (mkPicture segs
                       (map fst (bentley_ottman segs))
                       (map snd (bentley_ottman segs))
                       (title_format (length segs) (length (bentley_ottman segs)))
                       "X-Achsis" "Y-Achsis")
    end.
Proof.
  intros Hlib Hsegs. unfold VisualizeFigure.draw. rewrite Hsegs, Hlib.
  cbn [array_step].
  destruct (bentley_ottman segs) as [|p pts]; [reflexivity|].
  destruct (columns_of_points p pts) as [-> [-> ->]]. reflexivity.
Qed.

(** X14: a figure is drawn only if the segments array reshapes and the
    intersections array has two dimensions and at least two columns: with
    the library, at least one point; from a file, an array of rows. *)
Theorem X14_figure_needs_rows (cfg : settings) (pic : picture Coord) :
  draw cfg = inr pic ->
  reshape_tolist (loadtxt (segments_path cfg)) = inr (line_collection pic) /\
  (use_library cfg = true -> bentley_ottman (line_collection pic) <> []) /\
  (use_library cfg = false ->
   exists cols rows, loadtxt (intersections_path cfg) = Array2 cols rows /\ 2 <= cols).
Proof.
  unfold VisualizeFigure.draw.
  destruct (reshape_tolist (loadtxt (segments_path cfg))) as [e|segs]; [discriminate|].
  cbn [array_step].
  destruct (use_library cfg).
  - destruct (bentley_ottman segs) as [|p pts] eqn:Hpts; [discriminate|].
    cbn [array_of_points column len array_step Nat.ltb Nat.leb].
    intro H. injection H as <-. cbn [line_collection].
    split; [reflexivity|]. split; [rewrite Hpts; discriminate|discriminate].
  - destruct (loadtxt (intersections_path cfg)) as [x|l|cols rows];
      [discriminate|discriminate|].
    cbn [column len].
    destruct (Nat.ltb_spec 0 cols) as [Hc0|]; [|discriminate]. cbn [array_step].
    destruct (Nat.ltb_spec 1 cols) as [Hc1|]; [|discriminate]. cbn [array_step].
    intro H. injection H as <-. cbn [line_collection].
    split; [reflexivity|]. split; [discriminate|].
    intros _. exists cols, rows. split; [reflexivity|lia].
Qed.

(** X15: in every figure drawn from rectangular arrays there are as many
    x as y markers, and the title states the number of segments in the
    line collection and that number of markers. *)
Theorem X15_title_counts_what_is_drawn (cfg : settings) (pic : picture Coord) :
  (forall path, well_formed (loadtxt path)) ->
  draw cfg = inr pic ->
  length (markers_x pic) = length (markers_y pic) /\
  title pic = title_format (length (line_collection pic)) (length (markers_x pic)) /\
  shape0 (loadtxt (segments_path cfg)) = inr (length (line_collection pic)).
Proof.
  intros Hwf. unfold VisualizeFigure.draw.
  destruct (reshape_tolist (loadtxt (segments_path cfg))) as [e|segs] eqn:Hsegs;
    [discriminate|].
  destruct (reshape_ok (loadtxt (segments_path cfg)) (Hwf _) Hsegs) as [Hshape _].
  cbn [array_step].
  destruct (use_library cfg).
  - destruct (bentley_ottman segs) as [|p pts]; [discriminate|].
    destruct (columns_of_points p pts) as [-> [-> ->]]. cbn [array_step].
    intro H. injection H as <-.
    cbn [markers_x markers_y title line_collection].
    cbn [length]. rewrite !length_map. auto.
  - specialize (Hwf (intersections_path cfg)).
    destruct (loadtxt (intersections_path cfg)) as [x|l|cols rows];
      [discriminate|discriminate|].
    cbn [well_formed] in Hwf.
    destruct (Nat.ltb_spec 0 cols) as [Hc0|Hc0]; [|cbn [column];
      destruct (Nat.ltb_spec 0 cols); [lia|discriminate]].
    destruct (Nat.ltb_spec 1 cols) as [Hc1|Hc1].
    + destruct (length_column Hwf Hc0) as [-> Hx].
      destruct (length_column Hwf Hc1) as [-> Hy].
      cbn [array_step len].
      intro H. injection H as <-.
      cbn [markers_x markers_y title line_collection].
      split; [transitivity (length rows); [exact Hx|symmetry; exact Hy]|].
      split; [f_equal; symmetry; exact Hx|exact Hshape].
    + destruct (length_column Hwf Hc0) as [-> _]. cbn [array_step column].
      destruct (Nat.ltb_spec 1 cols); [lia|discriminate].
Qed.

End Figure.

End VisualizeExtras.

(** ** Runs of the further properties *)

Module ExtraRuns.

Import Engine Geometry Library EngineOutput EngineExtras.
Import Visualize Numpy VisualizeFigure VisualizeExtras.

Lemma X2_witness :
  0 < length (var_s sample_loaded) /\
  nth_error (stdout (Engine.driver intersection sample_loaded)) 2
  = Some (PrintCount entity 2).
Proof.
  assert (H : 0 < length (var_s sample_loaded)) by (vm_compute; lia).
  split; [exact H|].
  exact (proj1 (proj2 (@X2_count_after_index entity intersection sample_loaded 0 H))).
Defined.

Lemma X4_witness :
  evals sample_loaded = [] /\
  origins (Engine.driver intersection sample_loaded) = [(0, 1); (0, 2); (1, 2)].
Proof.
  split; [reflexivity|].
  exact (proj1 (@X4_kept_pairs_are_the_intersecting_pairs entity intersection
                  sample_loaded eq_refl)).
Defined.

Lemma X7_witness :
  length (var_s (Engine.load Point Segment [] (init entity))) <= 1 /\
  var_i (Engine.driver intersection (Engine.load Point Segment [] (init entity))) = [].
Proof.
  assert (H : length (var_s (Engine.load Point Segment [] (init entity))) <= 1)
    by (vm_compute; lia).
  split; [exact H|].
  exact (proj2 (@X7_small_store_no_call entity intersection
                  (Engine.load Point Segment [] (init entity)) H)).
Defined.

Lemma X8_witness :
  length sample_table <> 1 /\
  exists st, Library.main sample_table = Returns st /\ length (stdout st) = 9.
Proof.
  assert (H : length sample_table <> 1) by discriminate.
  split; [exact H|].
  destruct (@X8_whole_script Q point entity Point Segment intersection
              sample_table H) as [st [Hmain [_ [_ [_ Hlen]]]]].
  exists st. split; [exact Hmain|exact Hlen].
Defined.

Lemma X9_witness :
  let argv := ["visualize.py"]%string in
  let fig := mkFigure "../data/s_1000_10.dat"%string "library"%string
                      [Call_loadtxt string "../data/s_1000_10.dat";
                       Call_bentley_ottman "../data/s_1000_10.dat"%string] in
  Visualize.run (fun path => Returns path) (fun a => Returns a)
                (fun _ : string => Returns [tt])
                (fun _ => "library"%string) argv = Returns fig /\
  calls fig = [Call_loadtxt string "../data/s_1000_10.dat";
               Call_bentley_ottman "../data/s_1000_10.dat"%string].
Proof.
  cbv zeta. split; [reflexivity|].
  exact (proj1 (proj2 (proj2
    (@X9_data_calls string string unit (fun path => Returns path)
       (fun a => Returns a) (fun _ : string => Returns [tt])
       (fun _ => "library"%string)
       ["visualize.py"]%string _ eq_refl)))).
Defined.

Lemma X10_witness :
  let argv := ["visualize.py"; "s.dat"; "../data/s_1000_10_intersections.dat"]%string in
  let fig := mkFigure "s.dat"%string "../data/s_1000_10_intersections.dat"%string
                      [Call_loadtxt string "s.dat";
                       Call_loadtxt string "../data/s_1000_10_intersections.dat"] in
  Visualize.run (fun path => Returns path) (fun a => Returns a)
                (fun _ : string => Returns [tt])
                (fun _ => "library"%string) argv = Returns fig /\
  In (Call_loadtxt string (intersections_path defaults)) (calls fig) /\
  In (intersections_path defaults) (user_arguments argv).
Proof.
  cbv zeta.
  assert (Hin : In (Call_loadtxt string (intersections_path defaults))
                   [Call_loadtxt string "s.dat";
                    Call_loadtxt string "../data/s_1000_10_intersections.dat"])
    by (right; left; reflexivity).
  split; [reflexivity|]. split; [exact Hin|].
  exact (@X10_default_intersections_path_unused string string unit
           (fun path => Returns path) (fun a => Returns a)
           (fun _ : string => Returns [tt])
           (fun _ => "library"%string)
           ["visualize.py"; "s.dat"; "../data/s_1000_10_intersections.dat"]%string
           _ eq_refl Hin).
Defined.

Lemma X11_witness :
  well_formed (Array2 4 [[0; 0; 4; 4]; [0; 4; 4; 0]]) /\
  reshape_tolist (Array2 4 [[0; 0; 4; 4]; [0; 4; 4; 0]])
  = inr [[[0; 0]; [4; 4]]; [[0; 4]; [4; 0]]] /\
  concat (concat [[[0; 0]; [4; 4]]; [[0; 4]; [4; 0]]]) = [0; 0; 4; 4; 0; 4; 4; 0].
Proof.
  assert (Hwf : well_formed (Array2 4 [[0; 0; 4; 4]; [0; 4; 4; 0]]))
    by (repeat constructor).
  split; [exact Hwf|]. split; [reflexivity|].
  exact (proj2 (proj2 (@X11_reshape_regroups nat
                         (Array2 4 [[0; 0; 4; 4]; [0; 4; 4; 0]])
                         [[[0; 0]; [4; 4]]; [[0; 4]; [4; 0]]] Hwf eq_refl))).
Defined.

Lemma X13_witness :
  use_library defaults = true /\
  reshape_tolist (Array2 4 [[0; 0; 4; 4]; [0; 4; 4; 0]])
  = inr [[[0; 0]; [4; 4]]; [[0; 4]; [4; 0]]] /\
  VisualizeFigure.draw (fun _ => Array2 4 [[0; 0; 4; 4]; [0; 4; 4; 0]])
                       (fun _ => []) defaults
  = inl (NumpyError IndexError).
Proof.
  split; [reflexivity|]. split; [reflexivity|].
  exact (@X13_library_figure nat (fun _ => Array2 4 [[0; 0; 4; 4]; [0; 4; 4; 0]])
           (fun _ => []) defaults [[[0; 0]; [4; 4]]; [[0; 4]; [4; 0]]]
           eq_refl eq_refl).
Defined.

Lemma X14_witness :
  let pic := mkPicture [[[0; 0]; [4; 4]]; [[0; 4]; [4; 0]]] [2] [2]
                       "2 Line Segments with 1 Intersections" "X-Achsis" "Y-Achsis" in
  VisualizeFigure.draw (fun _ => Array2 4 [[0; 0; 4; 4]; [0; 4; 4; 0]])
                       (fun _ => [(2, 2)]) defaults = inr pic /\
  reshape_tolist (Array2 4 [[0; 0; 4; 4]; [0; 4; 4; 0]]) = inr (line_collection pic).
Proof.
  cbv zeta. split; [reflexivity|].
  exact (proj1 (@X14_figure_needs_rows nat
                  (fun _ => Array2 4 [[0; 0; 4; 4]; [0; 4; 4; 0]])
                  (fun _ => [(2, 2)]) defaults _ eq_refl)).
Defined.

Lemma X15_witness :
  let loadtxt := fun _ : string => Array2 4 [[0; 0; 4; 4]; [0; 4; 4; 0]] in
  let pic := mkPicture [[[0; 0]; [4; 4]]; [[0; 4]; [4; 0]]] [0; 0] [0; 4]
                       "2 Line Segments with 2 Intersections" "X-Achsis" "Y-Achsis" in
  (forall path, well_formed (loadtxt path)) /\
  VisualizeFigure.draw loadtxt (fun _ => [])
                       (mkSettings "s.dat" "i.dat" false) = inr pic /\
  title pic = title_format 2 2.
Proof.
  cbv zeta.
  assert (Hwf : forall path : string,
             well_formed (Array2 4 [[0; 0; 4; 4]; [0; 4; 4; 0]]))
    by (intro; repeat constructor).
  split; [exact Hwf|]. split; [reflexivity|].
  exact (proj1 (proj2 (@X15_title_counts_what_is_drawn nat
                  (fun _ => Array2 4 [[0; 0; 4; 4]; [0; 4; 4; 0]])
                  (fun _ => []) (mkSettings "s.dat" "i.dat" false) _ Hwf eq_refl))).
Defined.

End ExtraRuns.
